(** * Gene presence matrices ordered by a phylogenetic tree

    A shallow embedding of [make_comparison_matrices.py]: the annotation
    parser [parse_gff], the flattening step [copy_gff_files], the tree-order
    reconciler [reorder_matrix_by_tree] and the per-category driver
    [process_gff_folder], followed by the properties of the specification
    that are settled on them.

    Python [str] values are [string]s whose characters stand for the code
    points 0..255.  Dictionaries keep their insertion order (association
    lists with unique keys), data frames are a row index, a column index and
    a rectangular block of cells, the file system is a finite map from paths
    to file contents, and a raised exception is the left injection of a
    sum.  What the script takes from the operating system and from its
    libraries (directory listings, creation times, the tree reader, the
    CSV text of a frame) is a parameter of the pipeline. *)

From Stdlib Require Import ZArith Ascii.
From stdpp Require Import base option list gmap strings pretty sorting.

Set Warnings "-register-all".

Local Open Scope Z_scope.

(** ** Python strings *)

Module Str.

(** [s.startswith(p)] *)
Fixpoint startswith (p s : string) : bool :=
  match p, s with
  | "", _ => true
  | String a p', String b s' => bool_decide (a = b) && startswith p' s'
  | String _ _, "" => false
  end.

(** [s[n:]] *)
Fixpoint drop (n : nat) (s : string) : string :=
  match n, s with
  | O, _ => s
  | S n', String _ s' => drop n' s'
  | S _, "" => ""
  end.

(** [s.endswith(p)] *)
Definition endswith (p s : string) : bool :=
  bool_decide (String.length p ≤ String.length s)%nat
  && bool_decide (drop (String.length s - String.length p) s = p).

(** [c in chars] for one character. *)
Fixpoint mem (c : ascii) (chars : string) : bool :=
  match chars with
  | "" => false
  | String a r => bool_decide (a = c) || mem c r
  end.

Fixpoint lstrip_chars (chars s : string) : string :=
  match s with
  | "" => ""
  | String c s' => if mem c chars then lstrip_chars chars s' else s
  end.

Fixpoint rstrip_chars (chars s : string) : string :=
  match s with
  | "" => ""
  | String c s' =>
      match rstrip_chars chars s' with
      | "" => if mem c chars then "" else String c ""
      | r => String c r
      end
  end.

(** [s.strip(chars)]: remove leading and trailing characters of [chars]. *)
Definition strip_chars (chars s : string) : string :=
  rstrip_chars chars (lstrip_chars chars s).

(** The characters [str.isspace] accepts below code point 256: tab, line
    feed, vertical tab, form feed, carriage return, the four separators
    28..31, space, next line (133) and no-break space (160). *)
Definition whitespace : string :=
  String "009" (String "010" (String "011" (String "012" (String "013"
  (String "028" (String "029" (String "030" (String "031" (String " "
  (String "133" (String "160" ""))))))))))).

(** [s.strip()] *)
Definition strip (s : string) : string := strip_chars whitespace s.

(** [s.split(sep)] for a separator of one character. *)
Fixpoint split (sep : ascii) (s : string) : list string :=
  match s with
  | "" => [""]
  | String c s' =>
      if bool_decide (c = sep) then "" :: split sep s'
      else match split sep s' with
           | h :: t => String c h :: t
           | [] => [String c ""]
           end
  end.

(** [s.replace(old, new)] for a non-empty [old]: the occurrences of [old]
    are replaced from left to right, without overlap.  [skip] counts the
    characters of an occurrence that are still to be passed over. *)
Fixpoint replace_go (old new : string) (skip : nat) (s : string) : string :=
  match s with
  | "" => ""
  | String c s' =>
      match skip with
      | S k => replace_go old new k s'
      | O =>
          if startswith old s
          then new +:+ replace_go old new (String.length old - 1) s'
          else String c (replace_go old new O s')
      end
  end.

Definition replace (old new s : string) : string := replace_go old new O s.

(** The lines a text file yields when iterated: each line keeps its
    terminating line feed, the last one may have none. *)
Fixpoint lines (s : string) : list string :=
  match s with
  | "" => []
  | String c s' =>
      if bool_decide (c = "010"%char) then String c "" :: lines s'
      else match lines s' with
           | h :: t => String c h :: t
           | [] => [String c ""]
           end
  end.

End Str.

(** [os.path.basename] on POSIX paths: what follows the last slash. *)
Definition os_path_basename (p : string) : string :=
  List.last (Str.split "/" p) "".

(** [os.path.join(a, b)] on POSIX paths. *)
Definition os_path_join (a b : string) : string :=
  if Str.startswith "/" b then b
  else if bool_decide (a = "") || Str.endswith "/" a then a +:+ b
  else a +:+ "/" +:+ b.

(** ** Exceptions and results *)

Inductive exn :=
  | FileNotFoundError
  | SameFileError
  | KeyError
  | ValueError
  | TypeError
  | AttributeError
  | NewickError.

Global Instance exn_eq_dec : EqDecision exn.
Proof. solve_decision. Defined.

Definition result (A : Type) : Type := exn + A.

Definition Ok {A} (a : A) : result A := inr a.
Definition Raise {A} (e : exn) : result A := inl e.

Definition rbind {A B} (m : result A) (k : A → result B) : result B :=
  match m with
  | inl e => inl e
  | inr a => k a
  end.

(** ** Dictionaries in insertion order *)

Definition dict (V : Type) : Type := list (string * V).

Fixpoint dict_get {V} (k : string) (d : dict V) : option V :=
  match d with
  | [] => None
  | (k', v) :: d' => if bool_decide (k' = k) then Some v else dict_get k d'
  end.

(** [d[k] = v]: an existing key keeps its place, a new key goes last. *)
Fixpoint dict_set {V} (k : string) (v : V) (d : dict V) : dict V :=
  match d with
  | [] => [(k, v)]
  | (k', v') :: d' =>
      if bool_decide (k' = k) then (k, v) :: d' else (k', v') :: dict_set k v d'
  end.

Definition dict_keys {V} (d : dict V) : list string := d.*1.

(** [{**d, **e}]: the items of [e] are set into [d], in order. *)
Definition dict_update {V} (d e : dict V) : dict V :=
  fold_left (λ acc kv, dict_set kv.1 kv.2 acc) e d.

(** ** The annotation parser *)

(** [re.search(r"Name=([^;]+)", s)]: the start positions are tried from left
    to right; at a position the literal [Name=] must be followed by at least
    one character other than [;], and the group takes the longest such
    run. *)
Fixpoint until_semicolon (s : string) : string :=
  match s with
  | "" => ""
  | String c s' => if bool_decide (c = ";"%char) then "" else String c (until_semicolon s')
  end.

Definition match_Name_at (s : string) : option string :=
  if Str.startswith "Name=" s then
    match until_semicolon (Str.drop 5 s) with
    | "" => None
    | v => Some v
    end
  else None.

Fixpoint re_search_Name (s : string) : option string :=
  match match_Name_at s with
  | Some v => Some v
  | None =>
      match s with
      | "" => None
      | String _ s' => re_search_Name s'
      end
  end.

(** The genome name of a file path (line 37). *)
Definition genome_name_of (file_path : string) : string :=
  Str.replace ".gff" "" (os_path_basename file_path).

(** The body of the loop over the lines of the file (lines 42-50). *)
Definition parse_line (target_genes : list string)
    (gene_presence : dict Z) (line : string) : dict Z :=
  if negb (Str.startswith "#" line) then
    let columns := Str.split "009" (Str.strip line) in
    if bool_decide (8 < length columns)%nat then
      let attributes := nth 8 columns "" in
      match re_search_Name attributes with
      | Some gene_name =>
          if bool_decide (gene_name ∈ target_genes)
          then dict_set gene_name 1 gene_presence
          else gene_presence
      | None => gene_presence
      end
    else gene_presence
  else gene_presence.

(** The file system: the text of every readable file, by path, as a read
    in text mode returns it.  Directories are not files of their own:
    [os.makedirs] changes nothing here, and the progress messages the
    script prints are left out. *)
Abbreviation filesystem := (gmap string string).

Definition read_file (fs : filesystem) (path : string) : result string :=
  match fs !! path with
  | Some text => Ok text
  | None => Raise FileNotFoundError
  end.

Definition parse_gff (fs : filesystem) (file_path : string)
    (target_genes : list string) : result (string * dict Z) :=
  let genome_name := genome_name_of file_path in
  let gene_presence :=
    fold_left (λ d gene, dict_set gene 0 d) target_genes [] in
  rbind (read_file fs file_path) (λ text,
    Ok (genome_name,
        fold_left (parse_line target_genes) (Str.lines text) gene_presence)).


(** ** Data frames *)

(** A cell or a label: a Python [str], an [int], or the missing value. *)
Inductive pyval :=
  | PStr (s : string)
  | PInt (z : Z)
  | PNaN.

Global Instance pyval_eq_dec : EqDecision pyval.
Proof. solve_decision. Defined.

Global Instance PStr_inj : Inj (=) (=) PStr.
Proof. by intros ?? [= ->]. Qed.

Record DataFrame := {
  index : list pyval;
  columns : list pyval;
  values : list (list pyval)
}.

(** The positions of a label on an axis, ascending. *)
Fixpoint positions_from (i : nat) (axis : list pyval) (k : pyval) : list nat :=
  match axis with
  | [] => []
  | x :: axis' =>
      if bool_decide (x = k) then i :: positions_from (S i) axis' k
      else positions_from (S i) axis' k
  end.

Definition positions (axis : list pyval) (k : pyval) : list nat :=
  positions_from 0 axis k.

Definition column_at (p : nat) (df : DataFrame) : list pyval :=
  (λ row, nth p row PNaN) <$> values df.

(** [pd.DataFrame(results)] for a list of dictionaries: the columns are the
    keys in the order they are first met, the index is [0 .. n-1], a key a
    record lacks gives a missing cell. *)
Definition DataFrame_of_records (results : list (dict pyval)) : DataFrame :=
  let cols :=
    fold_left (λ acc r, acc ++ filter (λ k, k ∉ acc) (dict_keys r)) results [] in
  {| index := (λ i, PInt (Z.of_nat i)) <$> seq 0 (length results);
     columns := PStr <$> cols;
     values := (λ r, (λ c, default PNaN (dict_get c r)) <$> cols) <$> results |}.

(** [df.set_index(label)]: the column becomes the row index and leaves the
    columns. *)
Definition set_index (label : pyval) (df : DataFrame) : result DataFrame :=
  match positions (columns df) label with
  | [] => Raise KeyError
  | [p] =>
      Ok {| index := column_at p df;
            columns := delete p (columns df);
            values := delete p <$> values df |}
  | _ => Raise ValueError
  end.

Definition as_int (v : pyval) : option Z :=
  match v with
  | PInt z => Some z
  | _ => None
  end.

(** [df.loc[rows, cols]] with two lists of labels: on each axis every
    requested label is replaced by all the positions that carry it; a label
    that an axis lacks is a [KeyError]. *)
Definition get_indexer (axis keys : list pyval) : result (list nat) :=
  if forallb (λ k, bool_decide (k ∈ axis)) keys
  then Ok (flat_map (positions axis) keys)
  else Raise KeyError.

Definition take {A} (d : A) (ps : list nat) (l : list A) : list A :=
  (λ p, nth p l d) <$> ps.

Definition loc (df : DataFrame) (rows cols : list pyval) : result DataFrame :=
  rbind (get_indexer (index df) rows) (λ ri,
  rbind (get_indexer (columns df) cols) (λ ci,
    Ok {| index := take PNaN ri (index df);
          columns := take PNaN ci (columns df);
          values := take PNaN ci <$> take [] ri (values df) |})).

(** The labels of an axis after selection: every requested label, once
    for each of its occurrences on the axis. *)
Definition blocks (axis keys : list pyval) : list pyval :=
  flat_map (λ k, replicate (length (positions axis k)) k) keys.

(** ** Trees *)

Inductive Clade := MkClade (name : option string) (clades : list Clade).

Definition clade_name (c : Clade) : option string :=
  match c with MkClade n _ => n end.

(** [tree.get_terminals()]: the clades without children, in preorder. *)
Fixpoint get_terminals (c : Clade) : list Clade :=
  match c with
  | MkClade _ [] => [c]
  | MkClade _ cs =>
      (fix go (l : list Clade) : list Clade :=
         match l with
         | [] => []
         | x :: l' => get_terminals x ++ go l'
         end) cs
  end.

(** [leaf.name.strip("'")] for each terminal; a terminal without a name has
    [None] for its name, on which [.strip] is an [AttributeError]. *)
Fixpoint tip_labels (leaves : list Clade) : result (list string) :=
  match leaves with
  | [] => Ok []
  | leaf :: rest =>
      match clade_name leaf with
      | None => Raise AttributeError
      | Some n => rbind (tip_labels rest) (λ ls, Ok (Str.strip_chars "'" n :: ls))
      end
  end.

(** Line 71: the tip labels that are labels of the row index. *)
Definition valid_genomes (df : DataFrame) (tip_labels_ordered : list string)
    : list string :=
  filter (λ g, PStr g ∈ index df) tip_labels_ordered.

(** [sorted(l, key=key)]: a stable sort, smallest key first. *)
Fixpoint insert_by {A} (key : A → Z) (x : A) (l : list A) : list A :=
  match l with
  | [] => [x]
  | y :: l' => if bool_decide (key x ≤ key y) then x :: l else y :: insert_by key x l'
  end.

Definition sorted {A} (key : A → Z) (l : list A) : list A :=
  foldr (insert_by key) [] l.

(** ** The pipeline *)

(** What [os.walk] yields during a run, as far as the flattening step
    looks at it: each directory with the names of the files in it. *)
Definition walk := list (string * list string).

Section Pipeline.

(** The operating system and the libraries the script calls:
    [os.listdir] ([None] for a missing directory), [os.path.getctime],
    [os.walk], [Bio.Phylo.read] on the text of a tree file, and the text
    [DataFrame.to_csv] writes. *)
Variable os_listdir : string → option (list string).
Variable os_getctime : string → Z.
Variable os_walk : string → walk.
Variable Phylo_read : string → result Clade.
Variable to_csv : DataFrame → string.

(** [shutil.copy2(src, dst)]: the source must exist, and must not be the
    destination itself (two paths are the same file when they are equal). *)
Definition copy2 (src dst : string) (fs : filesystem) : result filesystem :=
  match fs !! src with
  | None => Raise FileNotFoundError
  | Some text =>
      if bool_decide (src = dst) then Raise SameFileError
      else Ok (<[dst := text]> fs)
  end.

(** The inner loop of [copy_gff_files] over the files of one directory.
    The result is the file system after the copies; when a copy raises,
    the copies already made are not followed further. *)
Fixpoint copy_files (root gff_output_folder : string) (files : list string)
    (fs : filesystem) : result filesystem :=
  match files with
  | [] => Ok fs
  | file :: files' =>
      if Str.endswith ".gff" file then
        let src := os_path_join root file in
        let dst := os_path_join gff_output_folder file in
        rbind (copy2 src dst fs) (copy_files root gff_output_folder files')
      else copy_files root gff_output_folder files' fs
  end.

(** The outer loop over what [os.walk] yields. *)
Fixpoint copy_dirs (gff_output_folder : string) (w : walk)
    (fs : filesystem) : result filesystem :=
  match w with
  | [] => Ok fs
  | (root, files) :: w' =>
      rbind (copy_files root gff_output_folder files fs)
            (copy_dirs gff_output_folder w')
  end.

Definition copy_gff_files (main_folder gff_output_folder : string)
    (fs : filesystem) : result filesystem :=
  copy_dirs gff_output_folder (os_walk main_folder) fs.

(** Lines 65-73. *)
Definition reorder_matrix_by_tree (fs : filesystem) (df : DataFrame)
    (tree_file_path : string) : result DataFrame :=
  rbind (read_file fs tree_file_path) (λ newick_text,
  rbind (Phylo_read newick_text) (λ tree,
  rbind (tip_labels (get_terminals tree)) (λ tip_labels_ordered,
    let valid := valid_genomes df tip_labels_ordered in
    loc df (PStr <$> valid) (PStr <$> valid)))).

(** Lines 90-92. *)
Definition gff_file_list (folder_path : string) : result (list string) :=
  match os_listdir folder_path with
  | None => Raise FileNotFoundError
  | Some names =>
      Ok (sorted (λ x, os_getctime (os_path_join folder_path x))
                 (filter (λ f, Str.endswith ".gff" f = true) names))
  end.

(** [{"Genome": genome_name, **gene_presence}] *)
Definition presence_record (genome_name : string) (gene_presence : dict Z)
    : dict pyval :=
  dict_update [("Genome", PStr genome_name)] (prod_map id PInt <$> gene_presence).

(** Lines 95-98. *)
Fixpoint parse_files (fs : filesystem) (folder_path : string)
    (target_genes : list string) (file_list : list string)
    : result (list (dict pyval)) :=
  match file_list with
  | [] => Ok []
  | filename :: rest =>
      let file_path := os_path_join folder_path filename in
      rbind (parse_gff fs file_path target_genes) (λ '(genome_name, gene_presence),
      rbind (parse_files fs folder_path target_genes rest) (λ results,
        Ok (presence_record genome_name gene_presence :: results)))
  end.

(** Lines 90-101: the presence table. *)
Definition presence_table (fs : filesystem) (folder_path : string)
    (target_genes : list string) : result DataFrame :=
  rbind (gff_file_list folder_path) (λ file_list,
  rbind (parse_files fs folder_path target_genes file_list) (λ results,
    set_index (PStr "Genome") (DataFrame_of_records results))).

(** Lines 111-112: the comparison matrix of one gene.  [df[gene]] is a
    [KeyError] without such a column; a label that several columns carry
    selects them all, and the three-dimensional product is then refused by
    the [DataFrame] constructor; [&] is a [TypeError] on cells that are
    not integers. *)
Definition comparison_matrix (df : DataFrame) (gene : string) : result DataFrame :=
  match positions (columns df) (PStr gene) with
  | [] => Raise KeyError
  | [p] =>
      match mapM as_int (column_at p df) with
      | None => Raise TypeError
      | Some v =>
          Ok {| index := index df;
                columns := index df;
                values := (λ a, (λ b, PInt (Z.land a b)) <$> v) <$> v |}
      end
  | ps =>
      match mapM as_int (concat ((λ p, column_at p df) <$> ps)) with
      | None => Raise TypeError
      | Some _ => Raise ValueError
      end
  end.

Definition ordered_matrix_filename (gene : string) : string :=
  gene +:+ "_comparison_matrix_ordered_by_tree.csv".

(** Lines 109-121: the loop over the genes; every file written so far
    stays written when an iteration raises. *)
Fixpoint gene_loop (df : DataFrame) (output_folder tree_file : string)
    (genes : list string) (fs : filesystem) : result unit * filesystem :=
  match genes with
  | [] => (Ok (), fs)
  | gene :: rest =>
      match rbind (comparison_matrix df gene)
              (λ gene_df, reorder_matrix_by_tree fs gene_df tree_file) with
      | inl e => (Raise e, fs)
      | inr gene_df_ordered =>
          let output_path :=
            os_path_join output_folder (ordered_matrix_filename gene) in
          gene_loop df output_folder tree_file rest
            (<[output_path := to_csv gene_df_ordered]> fs)
      end
  end.

Definition presence_matrix_filename (label : string) : string :=
  label +:+ "_gene_presence_matrix.csv".

Definition process_gff_folder (folder_path : string)
    (target_genes : list string) (output_folder tree_file label : string)
    (fs : filesystem) : result unit * filesystem :=
  match presence_table fs folder_path target_genes with
  | inl e => (Raise e, fs)
  | inr df =>
      let matrix_path :=
        os_path_join output_folder (presence_matrix_filename label) in
      gene_loop df output_folder tree_file target_genes
        (<[matrix_path := to_csv df]> fs)
  end.

End Pipeline.

(** ** A reader for plain bracket notation

    An instance of the tree reader for the examples below: names, commas,
    nested brackets and a closing semicolon, with no quoting, lengths or
    comments.  [stack] holds the children gathered so far for every open
    bracket, innermost first; [kids] are the children of the clade whose
    label is being read.  Every general statement below holds for any
    reader. *)
Definition newick_clade (kids : list Clade) (label : string) : Clade :=
  MkClade (if bool_decide (label = "") then None else Some label) kids.

Fixpoint newick_go (stack : list (list Clade)) (kids : list Clade)
    (label s : string) : result Clade :=
  match s with
  | "" =>
      match stack with
      | [] => Ok (newick_clade kids label)
      | _ => Raise NewickError
      end
  | String c s' =>
      if bool_decide (c = "("%char) then
        match kids, label with
        | [], "" => newick_go ([] :: stack) [] "" s'
        | _, _ => Raise NewickError
        end
      else if bool_decide (c = ","%char) then
        match stack with
        | top :: st => newick_go ((top ++ [newick_clade kids label]) :: st) [] "" s'
        | [] => Raise NewickError
        end
      else if bool_decide (c = ")"%char) then
        match stack with
        | top :: st => newick_go st (top ++ [newick_clade kids label]) "" s'
        | [] => Raise NewickError
        end
      else if bool_decide (c = ";"%char) then
        match stack with
        | [] => Ok (newick_clade kids label)
        | _ => Raise NewickError
        end
      else newick_go stack kids (label +:+ String c "") s'
  end.

Definition newick_reader (text : string) : result Clade :=
  match Str.strip text with
  | "" => Raise ValueError
  | s => newick_go [] [] "" s
  end.

(** ** Vocabulary of the statements *)

(** One annotation record: the fields joined by tabs, with its line feed. *)
Definition gff_record (fields : list string) : string :=
  String.concat (String "009" "") fields +:+ String "010" "".

(** What may follow a value: the end of the field, or a semicolon. *)
Definition ends_value (after : string) : Prop :=
  after = "" ∨ ∃ a, after = String ";" a.

(** The value the parser reads from an attribute field, in words: [Name=]
    occurs at some offset, followed by the value, which is not empty, holds
    no semicolon, and ends at a semicolon or at the end of the field; every
    occurrence of [Name=] at a smaller offset is directly followed by a
    semicolon or by the end of the field. *)
Definition Name_value (attributes value : string) : Prop :=
  ∃ (i : nat) (after : string),
    Str.drop i attributes = "Name=" +:+ value +:+ after ∧
    value ≠ "" ∧ Str.mem ";" value = false ∧ ends_value after ∧
    ∀ (j : nat) (rest : string), (j < i)%nat →
      Str.drop j attributes = "Name=" +:+ rest → ends_value rest.

(** The rule as the specification words it: the text between the first
    occurrence of [Name=] and the next semicolon or the end of the field. *)
Definition first_Name_value (attributes value : string) : Prop :=
  ∃ (i : nat) (after : string),
    Str.drop i attributes = "Name=" +:+ value +:+ after ∧
    Str.mem ";" value = false ∧ ends_value after ∧
    ∀ (j : nat) (rest : string), (j < i)%nat →
      Str.drop j attributes ≠ "Name=" +:+ rest.

(** The cell at row [i] and column [j], by position. *)
Definition cell (df : DataFrame) (i j : nat) : option pyval :=
  row ← values df !! i; row !! j.

(** The cell of a table at row [i] in the column of a gene. *)
Definition table_cell (df : DataFrame) (i : nat) (gene : string) : option pyval :=
  p ← head (positions (columns df) (PStr gene)); cell df i p.

(** A presence bit as a cell. *)
Definition bit (b : bool) : pyval := PInt (Z.b2z b).

(** The shape of a frame: as many rows as row labels, and in every row as
    many cells as column labels. *)
Definition rectangular (df : DataFrame) : Prop :=
  length (values df) = length (index df) ∧
  Forall (λ row, length row = length (columns df)) (values df).

(** A presence table: a rectangular frame whose columns are distinct gene
    names and whose cells are presence bits. *)
Definition PresenceTable (df : DataFrame) : Prop :=
  rectangular df ∧ NoDup (columns df) ∧
  Forall (Forall (λ c, ∃ b, c = bit b)) (values df).

(** ** The copies of the flattening step *)

(** The copies [copy_gff_files] asks for, in order: source and
    destination. *)
Definition copies_of_dir (gff_output_folder root : string)
    (files : list string) : list (string * string) :=
  (λ file, (os_path_join root file, os_path_join gff_output_folder file))
    <$> filter (λ f, Str.endswith ".gff" f = true) files.

Definition copies (gff_output_folder : string) (w : walk)
    : list (string * string) :=
  flat_map (λ d, copies_of_dir gff_output_folder d.1 d.2) w.

Fixpoint copy_all (cs : list (string * string)) (fs : filesystem)
    : result filesystem :=
  match cs with
  | [] => Ok fs
  | (src, dst) :: cs' => rbind (copy2 src dst fs) (copy_all cs')
  end.

(** The source of the last copy to a path. *)
Fixpoint last_source (cs : list (string * string)) (p : string) : option string :=
  match cs with
  | [] => None
  | (src, dst) :: cs' =>
      match last_source cs' p with
      | Some s => Some s
      | None => if bool_decide (dst = p) then Some src else None
      end
  end.

(** Every source of the copies is a readable file, and none of them is
    the destination of a copy. *)
Definition sources_apart (cs : list (string * string)) (fs : filesystem) : Prop :=
  Forall (λ c, is_Some (fs !! c.1) ∧ (c.1 ∉ cs.*2)) cs.

(** ** Rows of the presence table *)

(** The presence vector of a readable file, and the row of cells it
    gives. *)
Definition presence_of (fs : filesystem) (file_path : string)
    (target_genes : list string) : dict Z :=
  match parse_gff fs file_path target_genes with
  | inr (_, gene_presence) => gene_presence
  | inl _ => []
  end.

Definition presence_row (fs : filesystem) (file_path : string)
    (target_genes : list string) : list pyval :=
  PInt <$> (presence_of fs file_path target_genes).*2.

(** The keys of every presence vector: the gene set without repetitions,
    in the order of first occurrence. *)
Definition gene_keys (target_genes : list string) : list string :=
  dict_keys (fold_left (λ d gene, dict_set gene (0 : Z) d) target_genes []).

(** A presence dictionary: distinct keys, bits for values. *)
Definition presence_dict (d : dict Z) : Prop :=
  NoDup (dict_keys d) ∧ Forall (λ kv, kv.2 = 0 ∨ kv.2 = 1) d.

(** ** Data of the examples *)

(** The presence table and the comparison matrix of the specification's
    example: genomes [A], [B], [C] and a gene [g] present in [A] and [C]. *)
Definition example_table : DataFrame :=
  {| index := [PStr "A"; PStr "B"; PStr "C"];
     columns := [PStr "g"];
     values := [[PInt 1]; [PInt 0]; [PInt 1]] |}.

Definition example_matrix : DataFrame :=
  {| index := [PStr "A"; PStr "B"; PStr "C"];
     columns := [PStr "A"; PStr "B"; PStr "C"];
     values := [[PInt 1; PInt 0; PInt 1];
                [PInt 0; PInt 0; PInt 0];
                [PInt 1; PInt 0; PInt 1]] |}.

Definition example_tree_text : string := "(B,(A,C));".

Definition example_tree : Clade :=
  MkClade None
    [MkClade (Some "B") [];
     MkClade None [MkClade (Some "A") []; MkClade (Some "C") []]].

(** A presence table with one label on two rows: what the files [a.gff]
    and [a.gff.gff] of one folder give, and its comparison matrix. *)
Definition twin_table : DataFrame :=
  {| index := [PStr "a"; PStr "a"];
     columns := [PStr "mecA"];
     values := [[PInt 1]; [PInt 0]] |}.

Definition twin_matrix : DataFrame :=
  {| index := [PStr "a"; PStr "a"];
     columns := [PStr "a"; PStr "a"];
     values := [[PInt 1; PInt 0]; [PInt 0; PInt 0]] |}.

(** A matrix of one genome. *)
Definition single_matrix : DataFrame :=
  {| index := [PStr "a"]; columns := [PStr "a"]; values := [[PInt 1]] |}.

(** The frame without rows and columns. *)
Definition empty_frame : DataFrame :=
  {| index := []; columns := []; values := [] |}.

(** A rendering of frames as text for the examples: a header line with the
    column labels, then one line for every row. *)
Definition csv_cell (v : pyval) : string :=
  match v with
  | PStr s => s
  | PInt z => pretty z
  | PNaN => ""
  end.

Definition csv_line (cells : list string) : string :=
  String.concat "," cells +:+ String "010" "".

Definition csv_text (df : DataFrame) : string :=
  csv_line ("" :: (csv_cell <$> columns df))
  +:+ String.concat ""
        (zip_with (λ label row, csv_line (csv_cell label :: (csv_cell <$> row)))
           (index df) (values df)).

(** A folder with the two annotation files [a.gff] and [a.gff.gff], the
    older one listed last, and a tree file; [mecA] is annotated in the
    first file only. *)
Definition twin_listdir (folder : string) : option (list string) :=
  if bool_decide (folder = "gff")
  then Some ["a.gff.gff"; "notes.txt"; "a.gff"] else None.

Definition twin_getctime (path : string) : Z :=
  Z.of_nat (String.length path).

Definition twin_fs (tree_text : string) : filesystem :=
  {[ "gff/a.gff" :=
       gff_record ["chr1"; "src"; "gene"; "1"; "900"; "."; "+"; ".";
                   "ID=g1;Name=mecA"];
     "gff/a.gff.gff" :=
       gff_record ["chr1"; "src"; "gene"; "5"; "700"; "."; "-"; ".";
                   "ID=g2;Name=gyrA"];
     "tree.nwk" := tree_text ]}.

(** ** Further vocabulary: the parser *)

(** The gene a record names, if it is a feature record with a [Name]
    value: the tests of lines 42-47 up to the regular expression. *)
Definition named_gene (line : string) : option string :=
  if negb (Str.startswith "#" line) then
    let columns := Str.split "009" (Str.strip line) in
    if bool_decide (8 < length columns)%nat
    then re_search_Name (nth 8 columns "")
    else None
  else None.

(** The same in words: the record is no comment, has nine fields once
    stripped, and the [Name] value of its ninth field is the gene. *)
Definition record_names (line gene : string) : Prop :=
  Str.startswith "#" line = false ∧
  (8 < length (Str.split "009" (Str.strip line)))%nat ∧
  Name_value (nth 8 (Str.split "009" (Str.strip line)) "") gene.

(** ** Further vocabulary: the driver *)

(** The paths [process_gff_folder] may write: the presence table of the
    category and one ordered matrix for every gene. *)
Definition output_paths (output_folder label : string)
    (target_genes : list string) : list string :=
  os_path_join output_folder (presence_matrix_filename label)
  :: ((λ gene, os_path_join output_folder (ordered_matrix_filename gene))
        <$> target_genes).

(** The ordered matrices of the genes for a table and a tree order: for
    every gene its comparison matrix, reindexed to its valid genomes. *)
Definition ordered_matrices (df : DataFrame) (tips : list string)
    (target_genes : list string) (ordered : list DataFrame) : Prop :=
  Forall2
    (λ gene R, ∃ M, comparison_matrix df gene = Ok M ∧
                    loc M (PStr <$> valid_genomes M tips)
                          (PStr <$> valid_genomes M tips) = Ok R)
    target_genes ordered.

(** The files the loop over the genes writes, one after the other. *)
Definition write_ordered (to_csv : DataFrame → string) (output_folder : string)
    (written : list (string * DataFrame)) (fs : filesystem) : filesystem :=
  fold_left
    (λ fs gR, <[os_path_join output_folder (ordered_matrix_filename gR.1)
                  := to_csv gR.2]> fs)
    written fs.

(** ** Further vocabulary: frames *)

(** A frame whose cell at [(i, j)] is its cell at [(j, i)]. *)
Definition symmetric (df : DataFrame) : Prop :=
  ∀ i j, cell df i j = cell df j i.

(** A frame of presence bits. *)
Definition bit_cells (df : DataFrame) : Prop :=
  Forall (Forall (λ c, ∃ b, c = bit b)) (values df).

(** ** The viewers: names of the matrix files *)

(** [s.split(sep)] for a separator of one character or more: the pieces
    between the occurrences of [sep], found from left to right without
    overlap.  [skip] counts the characters of an occurrence that are still
    to be passed over. *)
Fixpoint split_str_go (sep : string) (skip : nat) (s : string) : list string :=
  match s with
  | "" => [""]
  | String c s' =>
      match skip with
      | S k => split_str_go sep k s'
      | O =>
          if Str.startswith sep s
          then "" :: split_str_go sep (String.length sep - 1) s'
          else match split_str_go sep O s' with
               | h :: t => String c h :: t
               | [] => [String c ""]
               end
      end
  end.

Definition split_str (sep s : string) : list string := split_str_go sep O s.

(** The suffix both viewers ask of a matrix file. *)
Definition matrix_suffix : string := "_comparison_matrix_ordered_by_tree.csv".

(** [os.path.basename(path).split("_comparison_matrix")[0]]
    ([generate_dotmaps.py] line 39, [dotmap_viewer.py] line 115). *)
Definition gene_of_matrix_file (path : string) : string :=
  nth 0 (split_str "_comparison_matrix" (os_path_basename path)) "".

(** [DotmapViewer.load_matrix_files] ([dotmap_viewer.py] lines 114-118):
    a dictionary from gene name to path, built in the order of the
    listing; a gene name met again takes the later path. *)
Definition load_matrix_files (os_listdir : string → option (list string))
    (folder : string) : result (dict string) :=
  match os_listdir folder with
  | None => Raise FileNotFoundError
  | Some names =>
      Ok (fold_left
            (λ d f, dict_set (gene_of_matrix_file f) (os_path_join folder f) d)
            (filter (λ f, Str.endswith matrix_suffix f = true) names) [])
  end.

(** A string occurs in another at some offset. *)
Definition occurs_in (sep s : string) : Prop :=
  ∃ i, Str.startswith sep (Str.drop i s) = true.

(** The ways to cut a string in two. *)
Fixpoint splits (s : string) : list (string * string) :=
  ("", s) ::
  match s with
  | "" => []
  | String c s' => prod_map (String c) id <$> splits s'
  end.

(** ** The static viewer: [generate_dotmaps.py] *)

(** What [create_dotmap] can raise: an exception of the kinds above, or
    the [UnboundLocalError] of a variable read before any assignment. *)
Inductive viewer_exn :=
  | Raised (e : exn)
  | UnboundLocalError.

(** One call of [plt.scatter]: the coordinates, the colour (the index of
    the file among the matrix files, over their number) and the label. *)
Record Scatter := {
  scatter_x : list nat;
  scatter_y : list nat;
  scatter_color : nat * nat;
  scatter_label : string
}.

(** The figure that is saved: the scatter calls in order and the tick
    labels of the two axes. *)
Record Figure := {
  traces : list Scatter;
  xticks : list pyval;
  yticks : list pyval
}.

Fixpoint rmapM {A B} (f : A → result B) (l : list A) : result (list B) :=
  match l with
  | [] => Ok []
  | x :: l' => rbind (f x) (λ y, rbind (rmapM f l') (λ ys, Ok (y :: ys)))
  end.

(** One cell of [(df > 0).astype(int)]: an integer is compared with 0, a
    missing value compares false, text does not compare with a number. *)
Definition positive (v : pyval) : result pyval :=
  match v with
  | PInt z => Ok (PInt (if bool_decide (0 < z) then 1 else 0))
  | PNaN => Ok (PInt 0)
  | PStr _ => Raise TypeError
  end.

(** [(df > 0).astype(int)] (line 49). *)
Definition binarize (df : DataFrame) : result DataFrame :=
  rbind (rmapM (rmapM positive) (values df)) (λ cells,
    Ok {| index := index df; columns := columns df; values := cells |}).

(** [binary_df.values.nonzero()] (line 50): the positions of the cells that
    are not 0, row by row, each as (row, column). *)
Fixpoint row_nonzero (i j : nat) (row : list pyval) : list (nat * nat) :=
  match row with
  | [] => []
  | c :: row' =>
      if bool_decide (c = PInt 0) then row_nonzero i (S j) row'
      else (i, j) :: row_nonzero i (S j) row'
  end.

Fixpoint rows_nonzero (i : nat) (rows : list (list pyval)) : list (nat * nat) :=
  match rows with
  | [] => []
  | row :: rows' => row_nonzero i 0 row ++ rows_nonzero (S i) rows'
  end.

Definition nonzero (df : DataFrame) : list (nat * nat) :=
  rows_nonzero 0 (values df).

(** [list.sort()] on strings: ascending by code points. *)
Fixpoint insert_str (x : string) (l : list string) : list string :=
  match l with
  | [] => [x]
  | y :: l' => if String.leb x y then x :: l else y :: insert_str x l'
  end.

Definition sort_str (l : list string) : list string := foldr insert_str [] l.

Section StaticViewer.

(** [os.listdir], and [pd.read_csv(path, index_col=0)] on a path: the
    frame of the file, or the exception of a file that cannot be read as a
    table. *)
Variable os_listdir : string → option (list string).
Variable pd_read_csv : string → result DataFrame.

(** Lines 18-22. *)
Definition matrix_files_of (matrix_folder : string) (names : list string)
    : list string :=
  os_path_join matrix_folder
    <$> filter (λ f, Str.endswith matrix_suffix f = true) names.

(** The scatter call of lines 39-53 for the [i]-th of [num_files] files. *)
Definition scatter_of (num_files i : nat) (path : string)
    (binary_df : DataFrame) : Scatter :=
  {| scatter_x := (nonzero binary_df).*2;
     scatter_y := (nonzero binary_df).*1;
     scatter_color := (i, num_files);
     scatter_label := gene_of_matrix_file path |}.

(** Lines 38-53: the loop over the matrix files.  A file that cannot be
    read is passed over; [binary_df] is the frame of the last file read. *)
Fixpoint plot_loop (num_files i : nat) (paths : list string)
    (plotted : list Scatter) (binary_df : option DataFrame)
    : viewer_exn + (list Scatter * option DataFrame) :=
  match paths with
  | [] => inr (plotted, binary_df)
  | path :: rest =>
      match pd_read_csv path with
      | inl _ => plot_loop num_files (S i) rest plotted binary_df
      | inr df =>
          match binarize df with
          | inl e => inl (Raised e)
          | inr b =>
              plot_loop num_files (S i) rest
                (plotted ++ [scatter_of num_files i path b]) (Some b)
          end
      end
  end.

(** [create_dotmap]: [None] when the folder has no matrix file, else the
    path of the image with the figure saved there. *)
Definition create_dotmap (matrix_folder : string)
    : viewer_exn + option (string * Figure) :=
  match os_listdir matrix_folder with
  | None => inl (Raised FileNotFoundError)
  | Some names =>
      match matrix_files_of matrix_folder names with
      | [] => inr None
      | matrix_files =>
          let matrix_files := sort_str matrix_files in
          match plot_loop (length matrix_files) 0 matrix_files [] None with
          | inl e => inl e
          | inr (plotted, None) => inl UnboundLocalError
          | inr (plotted, Some binary_df) =>
              inr (Some (os_path_join matrix_folder "combined_dotmap.png",
                         {| traces := plotted;
                            xticks := columns binary_df;
                            yticks := index binary_df |}))
          end
      end
  end.

(** The files of [paths] that [pd.read_csv] reads, each with its frame. *)
Definition frames_read (paths : list string) : list (string * DataFrame) :=
  omap (λ path, match pd_read_csv path with
                | inl _ => None
                | inr df => Some (path, df)
                end) paths.

End StaticViewer.

(** A frame without cells of text. *)
Definition numeric (df : DataFrame) : Prop :=
  Forall (Forall (λ c, ∀ s, c ≠ PStr s)) (values df).

(** The points of a scatter call, each as (x, y). *)
Definition scatter_points (t : Scatter) : list (nat * nat) :=
  zip (scatter_x t) (scatter_y t).

(** A frame with a cell of text. *)
Definition text_matrix : DataFrame :=
  {| index := [PStr "a"]; columns := [PStr "a"]; values := [[PStr "x"]] |}.

(** A folder with two matrix files, of which [pd.read_csv] reads the one of
    [tetA] only. *)
Definition viewer_listdir (folder : string) : option (list string) :=
  if bool_decide (folder = "out/hgt")
  then Some ["tetA_comparison_matrix_ordered_by_tree.csv";
             "HGT_gene_presence_matrix.csv";
             "mecA_comparison_matrix_ordered_by_tree.csv"]
  else None.

Definition viewer_read_csv (path : string) : result DataFrame :=
  if bool_decide (path = "out/hgt/tetA_comparison_matrix_ordered_by_tree.csv")
  then Ok example_matrix
  else Raise FileNotFoundError.

Definition unreadable_csv (path : string) : result DataFrame :=
  Raise FileNotFoundError.

(** ** The whole run *)

Definition hgt_genes : list string := ["mecA"; "cmlA"; "tetA"; "tetM"; "vanA"].
Definition vgt_genes : list string := ["gapA"; "gyrA"; "gyrB"; "recA"; "rpoB"].

Section Main.

Variable os_walk : string → walk.
Variable os_listdir : string → option (list string).
Variable os_getctime : string → Z.
Variable Phylo_read : string → result Clade.
Variable to_csv : DataFrame → string.

(** [main] of [make_comparison_matrices.py]: the files after a run that
    ends well, or the exception of the step that raises, after which no
    further step is taken. *)
Definition main (input_folder output_folder tree_file : string)
    (fs : filesystem) : result filesystem :=
  let gff_flat_folder := os_path_join output_folder "gff" in
  rbind (copy_gff_files os_walk input_folder gff_flat_folder fs) (λ fs1,
  let hgt_output := os_path_join output_folder "hgt" in
  match process_gff_folder os_listdir os_getctime Phylo_read to_csv
          gff_flat_folder hgt_genes hgt_output tree_file "HGT" fs1 with
  | (inl e, _) => Raise e
  | (inr _, fs2) =>
      let vgt_output := os_path_join output_folder "vgt" in
      match process_gff_folder os_listdir os_getctime Phylo_read to_csv
              gff_flat_folder vgt_genes vgt_output tree_file "VGT" fs2 with
      | (inl e, _) => Raise e
      | (inr _, fs3) => Ok fs3
      end
  end).

End Main.

(** A run over one genome folder. *)
Definition run_walk (folder : string) : walk :=
  if bool_decide (folder = "in") then [("in", []); ("in/g1", ["a.gff"; "a.ffn"])]
  else [].

Definition run_listdir (folder : string) : option (list string) :=
  if bool_decide (folder = "out/gff") then Some ["a.gff"] else None.

Definition run_fs : filesystem :=
  {[ "in/g1/a.gff" :=
       gff_record ["chr1"; "src"; "gene"; "1"; "900"; "."; "+"; ".";
                   "ID=g1;Name=mecA"];
     "tree.nwk" := "(a,b);" ]}.

(** * Properties *)

(** ** Worked examples *)

Example parse_gff_strainA :
  parse_gff
    {[ "gff/strainA.gff" :=
         gff_record ["chr1"; "src"; "gene"; "1"; "900"; "."; "+"; ".";
                     "ID=g1;Name=mecA;product=x"] ]}
    "gff/strainA.gff" ["mecA"; "tetA"]
  = Ok ("strainA", [("mecA", 1); ("tetA", 0)]).
Proof. vm_compute. reflexivity. Qed.

Example tree_order_BAC :
  rbind (newick_reader "(B,(A,C));") (λ t, tip_labels (get_terminals t))
  = Ok ["B"; "A"; "C"].
Proof. vm_compute. reflexivity. Qed.

(** ** Strings and dictionaries *)

Lemma startswith_app (p s : string) :
  Str.startswith p s = true ↔ ∃ r, s = p +:+ r.
Proof.
  revert s. induction p as [|a p IH]; intros s; simpl.
  - split; [intros _; by exists s | done].
  - destruct s as [|b s]; simpl.
    + split; [done | intros [r Hr]; discriminate Hr].
    + rewrite andb_true_iff, bool_decide_eq_true, IH. split.
      * intros [-> [r ->]]. by exists r.
      * intros [r Hr]. injection Hr as -> ->. eauto.
Qed.

Lemma dict_get_set_eq {V} (k : string) (v : V) (d : dict V) :
  dict_get k (dict_set k v d) = Some v.
Proof.
  induction d as [|[k' v'] d IH]; simpl.
  - by rewrite bool_decide_eq_true_2.
  - destruct (decide (k' = k)) as [->|Hne].
    + rewrite bool_decide_eq_true_2 by done. simpl.
      by rewrite bool_decide_eq_true_2.
    + rewrite bool_decide_eq_false_2 by done. simpl.
      by rewrite bool_decide_eq_false_2.
Qed.

Lemma dict_get_set_ne {V} (k k' : string) (v : V) (d : dict V) :
  k ≠ k' → dict_get k (dict_set k' v d) = dict_get k d.
Proof.
  intros Hne. induction d as [|[k0 v0] d IH]; simpl.
  - by rewrite bool_decide_eq_false_2.
  - destruct (decide (k0 = k')) as [->|Hne0].
    + rewrite bool_decide_eq_true_2 by done. simpl.
      by rewrite !bool_decide_eq_false_2.
    + rewrite bool_decide_eq_false_2 by done. simpl.
      by rewrite IH.
Qed.

(** ** The [Name] attribute *)


Lemma until_semicolon_split (s : string) :
  ∃ after, s = until_semicolon s +:+ after ∧
           Str.mem ";" (until_semicolon s) = false ∧ ends_value after.
Proof.
  induction s as [|c s (after & Hs & Hm & He)]; simpl.
  - exists "". repeat split. by left.
  - case_bool_decide as Hc.
    + subst c. exists (String ";" s). repeat split. right. eauto.
    + exists after. simpl. split; [|split; [|done]].
      * change (String c (until_semicolon s) +:+ after)
          with (String c (until_semicolon s +:+ after)). by rewrite <- Hs.
      * rewrite bool_decide_eq_false_2 by congruence. done.
Qed.

Lemma until_semicolon_unique (v after : string) :
  Str.mem ";" v = false → ends_value after →
  until_semicolon (v +:+ after) = v.
Proof.
  intros Hm He. induction v as [|c v IH].
  - destruct He as [->|[a ->]]; reflexivity.
  - simpl in Hm. apply orb_false_iff in Hm as [Hc Hm].
    apply bool_decide_eq_false in Hc.
    change (String c v +:+ after) with (String c (v +:+ after)). simpl.
    rewrite bool_decide_eq_false_2 by congruence. by rewrite IH.
Qed.

Lemma until_semicolon_empty (s : string) :
  until_semicolon s = "" ↔ ends_value s.
Proof.
  destruct s as [|c s]; simpl.
  - split; [by left | done].
  - case_bool_decide as Hc.
    + subst c. split; [right; eauto | done].
    + split; [done | intros [?|[a Ha]]; [done | congruence]].
Qed.

Lemma match_Name_at_Some (s v : string) :
  match_Name_at s = Some v ↔
  ∃ after, s = "Name=" +:+ v +:+ after ∧ v ≠ "" ∧
           Str.mem ";" v = false ∧ ends_value after.
Proof.
  unfold match_Name_at. split.
  - destruct (Str.startswith "Name=" s) eqn:Hp; [|done].
    apply startswith_app in Hp as [r ->].
    change (Str.drop 5 ("Name=" +:+ r)) with r.
    destruct (until_semicolon_split r) as (after & Hr & Hm & He).
    destruct (until_semicolon r) as [|c u] eqn:Hu; [done|].
    intros [= <-]. exists after. by rewrite <- Hr.
  - intros (after & -> & Hne & Hm & He).
    rewrite (proj2 (startswith_app _ _)) by eauto.
    change (Str.drop 5 ("Name=" +:+ v +:+ after)) with (v +:+ after).
    rewrite until_semicolon_unique by done. by destruct v.
Qed.

Lemma match_Name_at_None (s : string) :
  match_Name_at s = None ↔
  ∀ rest, s = "Name=" +:+ rest → ends_value rest.
Proof.
  unfold match_Name_at. split.
  - destruct (Str.startswith "Name=" s) eqn:Hp.
    + apply startswith_app in Hp as [r ->].
      change (Str.drop 5 ("Name=" +:+ r)) with r.
      destruct (until_semicolon r) eqn:Hu; [|done].
      intros _ rest Hrest. apply (inj (String.app "Name=")) in Hrest as <-.
      by apply until_semicolon_empty.
    + intros _ rest ->.
      rewrite (proj2 (startswith_app _ _)) in Hp by eauto. done.
  - intros H. destruct (Str.startswith "Name=" s) eqn:Hp; [|done].
    apply startswith_app in Hp as [r ->].
    change (Str.drop 5 ("Name=" +:+ r)) with r.
    by rewrite (proj2 (until_semicolon_empty r)) by eauto.
Qed.

Lemma re_search_Name_offset (s v : string) :
  re_search_Name s = Some v ↔
  ∃ i, match_Name_at (Str.drop i s) = Some v ∧
       ∀ j, (j < i)%nat → match_Name_at (Str.drop j s) = None.
Proof.
  induction s as [|c s IH].
  - simpl. split; [done|]. intros (i & Hi & _). by destruct i.
  - change (re_search_Name (String c s)) with
      (match match_Name_at (String c s) with
       | Some v' => Some v'
       | None => re_search_Name s
       end).
    destruct (match_Name_at (String c s)) as [v'|] eqn:Hm.
    + split.
      * intros [= <-]. exists O. split; [done | lia].
      * intros (i & Hi & Hlt). destruct i as [|i].
        -- simpl in Hi. congruence.
        -- specialize (Hlt O ltac:(lia)). simpl in Hlt. congruence.
    + rewrite IH. split.
      * intros (i & Hi & Hlt). exists (S i). split; [done|].
        intros [|j] Hj; [done|]. apply Hlt. lia.
      * intros (i & Hi & Hlt). destruct i as [|i].
        -- simpl in Hi. congruence.
        -- exists i. split; [done|]. intros j Hj. apply (Hlt (S j)). lia.
Qed.

(** The search of the parser finds exactly the value described in words. *)
Lemma re_search_Name_spec (attributes value : string) :
  re_search_Name attributes = Some value ↔ Name_value attributes value.
Proof.
  rewrite re_search_Name_offset. unfold Name_value. split.
  - intros (i & Hi & Hlt). apply match_Name_at_Some in Hi as (after & ? & ? & ? & ?).
    exists i, after. repeat split; try done.
    intros j rest Hj Hrest. by eapply match_Name_at_None; [apply Hlt|].
  - intros (i & after & Hi & ? & ? & ? & Hlt). exists i. split.
    + apply match_Name_at_Some. eauto.
    + intros j Hj. apply match_Name_at_None. intros rest. by apply Hlt.
Qed.


(** C6 (as amended).  For a record that is not a comment and that, once its
    surrounding whitespace is removed, has at least nine tab-separated
    fields, the record turns the presence bit of a gene of the gene set
    from 0 to 1 if and only if the gene's name is, as a whole string, the
    [Name] value of the ninth field: the text after the first [Name=] that
    is followed by a character other than [;], up to the next [;] or the
    end of the field. *)
Theorem parse_line_presence_bit (target_genes : list string)
    (gene_presence : dict Z) (line gene : string) :
  Str.startswith "#" line = false →
  (8 < length (Str.split "009" (Str.strip line)))%nat →
  gene ∈ target_genes →
  dict_get gene gene_presence = Some 0 →
  dict_get gene (parse_line target_genes gene_presence line) = Some 1
  ↔ Name_value (nth 8 (Str.split "009" (Str.strip line)) "") gene.
Proof.
  intros Hcomment Hfields Hgene Hzero. unfold parse_line.
  rewrite Hcomment. simpl. rewrite bool_decide_eq_true_2 by done.
  rewrite <- re_search_Name_spec.
  destruct (re_search_Name _) as [gene_name|]; [|by rewrite Hzero].
  destruct (decide (gene_name = gene)) as [->|Hne].
  - rewrite bool_decide_eq_true_2 by done. by rewrite dict_get_set_eq.
  - assert (dict_get gene
              (if bool_decide (gene_name ∈ target_genes)
               then dict_set gene_name 1 gene_presence
               else gene_presence) = Some 0) as ->.
    { case_bool_decide; [|done]. by rewrite dict_get_set_ne. }
    split; [done | congruence].
Qed.

Lemma parse_line_presence_bit_witness :
  dict_get "mecA"
    (parse_line ["mecA"; "tetA"] [("mecA", 0); ("tetA", 0)]
       (gff_record ["chr1"; "src"; "gene"; "1"; "900"; "."; "+"; ".";
                    "ID=g1;Name=mecA;product=x"])) = Some 1
  ↔ Name_value "ID=g1;Name=mecA;product=x" "mecA".
Proof.
  apply (parse_line_presence_bit ["mecA"; "tetA"] [("mecA", 0); ("tetA", 0)]
           (gff_record ["chr1"; "src"; "gene"; "1"; "900"; "."; "+"; ".";
                        "ID=g1;Name=mecA;product=x"]) "mecA").
  - reflexivity.
  - vm_compute. lia.
  - apply list_elem_of_here.
  - reflexivity.
Defined.

(** C6, counterexample.  A ninth field whose first [Name=] has an empty
    value and whose second one names the gene: the parser sets the bit,
    although the text between the first [Name=] and the next [;] is
    empty. *)
Lemma first_Name_value_not_the_rule :
  dict_get "mecA"
    (parse_line ["mecA"] [("mecA", 0)]
       (gff_record ["chr1"; "src"; "gene"; "1"; "900"; "."; "+"; ".";
                    "Name=;Name=mecA"])) = Some 1
  ∧ nth 8 (Str.split "009" (Str.strip
       (gff_record ["chr1"; "src"; "gene"; "1"; "900"; "."; "+"; ".";
                    "Name=;Name=mecA"]))) "" = "Name=;Name=mecA"
  ∧ ¬ first_Name_value "Name=;Name=mecA" "mecA".
Proof.
  split; [reflexivity|]. split; [reflexivity|].
  intros (i & after & Hi & _ & _ & Hfirst).
  destruct i as [|i].
  - discriminate Hi.
  - by apply (Hfirst O ";Name=mecA"); [lia|].
Qed.

(** C7.  A base name that holds the extension twice: every occurrence is
    removed from the genome name, not only the trailing one, so the files
    [a.gff.gff] and [a.gff] are the same genome to the parser. *)
Theorem genome_name_loses_inner_extension :
  parse_gff {[ "genomes/a.gff.gff" := "" ]} "genomes/a.gff.gff" ["mecA"]
    = Ok ("a", [("mecA", 0)])
  ∧ os_path_basename "genomes/a.gff.gff" = "a.gff.gff"
  ∧ genome_name_of "genomes/a.gff.gff" = genome_name_of "genomes/a.gff".
Proof. repeat split; vm_compute; reflexivity. Qed.

(** ** Positions of a label *)

Lemma elem_of_positions_from (i p : nat) (axis : list pyval) (k : pyval) :
  p ∈ positions_from i axis k ↔ ∃ q, p = (i + q)%nat ∧ axis !! q = Some k.
Proof.
  revert i. induction axis as [|x axis IH]; intros i; simpl.
  - split; [by intros ?%elem_of_nil | by intros (q & _ & ?)].
  - assert (p ∈ positions_from (S i) axis k ↔
            ∃ q, p = (i + S q)%nat ∧ axis !! q = Some k) as Htail.
    { rewrite IH. by setoid_rewrite Nat.add_succ_r. }
    case_bool_decide as Hx.
    + subst x. rewrite elem_of_cons, Htail. split.
      * intros [->|(q & -> & Hq)]; [exists O | exists (S q)]; split; (lia || done).
      * intros ([|q] & -> & Hq); [left; lia | right; eauto].
    + rewrite Htail. split.
      * intros (q & -> & Hq). by exists (S q).
      * intros ([|q] & -> & Hq); [simpl in Hq; congruence | eauto].
Qed.

Lemma positions_from_nil (i : nat) (axis : list pyval) (k : pyval) :
  positions_from i axis k = [] ↔ k ∉ axis.
Proof.
  revert i. induction axis as [|x axis IH]; intros i; simpl.
  - split; [intros _; apply not_elem_of_nil | done].
  - rewrite not_elem_of_cons. case_bool_decide as Hx.
    + split; [done | intros [? _]; congruence].
    + rewrite IH. split; [intros ?; split; [congruence | done] | by intros [_ ?]].
Qed.

Lemma positions_from_single (i p : nat) (axis : list pyval) (k : pyval) :
  NoDup axis → axis !! p = Some k → positions_from i axis k = [(i + p)%nat].
Proof.
  intros Hnd. revert i p. induction Hnd as [|x axis Hx Hnd IH]; intros i p Hp.
  - done.
  - simpl. destruct p as [|p]; simpl in Hp.
    + injection Hp as ->. rewrite bool_decide_eq_true_2 by done.
      rewrite (proj2 (positions_from_nil _ _ _)) by done. f_equal. lia.
    + rewrite bool_decide_eq_false_2.
      * rewrite (IH (S i) p) by done. f_equal. lia.
      * intros ->. apply Hx. by eapply list_elem_of_lookup_2.
Qed.

Lemma positions_single (axis : list pyval) (k : pyval) :
  NoDup axis → k ∈ axis → ∃ p, positions axis k = [p] ∧ axis !! p = Some k.
Proof.
  intros Hnd [p Hp]%list_elem_of_lookup. exists p. split; [|done].
  unfold positions. by rewrite (positions_from_single 0 p).
Qed.

(** ** The comparison matrix of a gene *)

Lemma as_int_bits (bits : list bool) :
  mapM as_int (bit <$> bits) = Some (Z.b2z <$> bits).
Proof.
  apply mapM_Some. induction bits; simpl; constructor; done.
Qed.

Lemma land_bits (a b : bool) : Z.land (Z.b2z a) (Z.b2z b) = Z.b2z (a && b).
Proof. by destruct a, b. Qed.

(** The presence column of a gene in a presence table. *)
Lemma presence_column (df : DataFrame) (gene : string) :
  PresenceTable df → PStr gene ∈ columns df →
  ∃ p bits,
    positions (columns df) (PStr gene) = [p] ∧
    column_at p df = bit <$> bits ∧
    length bits = length (index df) ∧
    ∀ i, table_cell df i gene = bit <$> bits !! i.
Proof.
  intros ((Hlen & Hrows) & Hnd & Hbits) Hgene.
  destruct (positions_single _ _ Hnd Hgene) as (p & Hpos & Hp).
  assert (p < length (columns df))%nat as Hlt by by eapply lookup_lt_Some.
  assert (∃ bits, column_at p df = bit <$> bits ∧
                  ∀ i, (row ← values df !! i; row !! p) = bit <$> bits !! i)
    as (bits & Hcol & Hcell).
  { unfold column_at. clear Hlen.
    induction (values df) as [|row rows IH].
    - exists []. split; [done|]. by intros [|i].
    - apply Forall_cons in Hrows as [Hrow Hrows].
      apply Forall_cons in Hbits as [Hb Hbits].
      destruct (IH Hrows Hbits) as (bits & Hcol & Hcell).
      destruct (lookup_lt_is_Some_2 row p) as [c Hc]; [lia|].
      destruct (Forall_lookup_1 _ _ _ _ Hb Hc) as [b ->].
      exists (b :: bits). split.
      + rewrite fmap_cons, Hcol. by rewrite (nth_lookup_Some _ _ _ _ Hc).
      + intros [|i]; [by simpl | apply Hcell]. }
  exists p, bits. repeat split; try done.
  - rewrite <- Hlen. apply (f_equal length) in Hcol.
    unfold column_at in Hcol. by rewrite !length_fmap in Hcol.
  - intros i. unfold table_cell. rewrite Hpos. simpl. apply Hcell.
Qed.

Lemma comparison_matrix_bits (df : DataFrame) (gene : string) p bits :
  positions (columns df) (PStr gene) = [p] →
  column_at p df = bit <$> bits →
  comparison_matrix df gene =
    Ok {| index := index df; columns := index df;
          values := (λ a, (λ b, bit (a && b)) <$> bits) <$> bits |}.
Proof.
  intros Hpos Hcol. unfold comparison_matrix. rewrite Hpos, Hcol, as_int_bits.
  do 2 f_equal. rewrite <- list_fmap_compose. apply list_fmap_ext.
  intros _ a _. simpl. rewrite <- list_fmap_compose. apply list_fmap_ext.
  intros _ b _. simpl. unfold bit. by rewrite land_bits.
Qed.

Lemma cell_outer (idx cols : list pyval) (bits : list bool) (i j : nat) :
  cell {| index := idx; columns := cols;
          values := (λ a, (λ b, bit (a && b)) <$> bits) <$> bits |} i j
  = a ← bits !! i; b ← bits !! j; Some (bit (a && b)).
Proof.
  unfold cell. simpl. rewrite list_lookup_fmap.
  destruct (bits !! i) as [a|]; simpl; [|done].
  rewrite list_lookup_fmap. by destruct (bits !! j).
Qed.

(** C3.  In the comparison matrix of a gene of a presence table, the cell
    at [(i, j)] is the conjunction of the presence bits of genomes [i] and
    [j], and the row and the column labels are the row labels of the table,
    in the same order. *)
Theorem comparison_matrix_outer_and (df : DataFrame) (gene : string) :
  PresenceTable df → PStr gene ∈ columns df →
  ∃ M, comparison_matrix df gene = Ok M ∧
       index M = index df ∧ columns M = index df ∧
       ∀ i j, (i < length (index df))%nat → (j < length (index df))%nat →
         ∃ bi bj, table_cell df i gene = Some (bit bi) ∧
                  table_cell df j gene = Some (bit bj) ∧
                  cell M i j = Some (bit (bi && bj)).
Proof.
  intros Hdf Hgene.
  destruct (presence_column df gene Hdf Hgene) as (p & bits & Hpos & Hcol & Hlen & Hcell).
  eexists. split; [by apply (comparison_matrix_bits df gene p bits)|].
  split; [done|]. split; [done|]. intros i j Hi Hj.
  destruct (lookup_lt_is_Some_2 bits i) as [bi Hbi]; [lia|].
  destruct (lookup_lt_is_Some_2 bits j) as [bj Hbj]; [lia|].
  exists bi, bj. rewrite !Hcell, Hbi, Hbj, cell_outer, Hbi, Hbj. done.
Qed.

(** C4.  The comparison matrix of a gene of a presence table is symmetric,
    and its diagonal repeats the presence column of the gene. *)
Theorem comparison_matrix_symmetric (df : DataFrame) (gene : string) :
  PresenceTable df → PStr gene ∈ columns df →
  ∃ M, comparison_matrix df gene = Ok M ∧
       (∀ i j, cell M i j = cell M j i) ∧
       (∀ i, (i < length (index df))%nat → cell M i i = table_cell df i gene).
Proof.
  intros Hdf Hgene.
  destruct (presence_column df gene Hdf Hgene) as (p & bits & Hpos & Hcol & Hlen & Hcell).
  eexists. split; [by apply (comparison_matrix_bits df gene p bits)|]. split.
  - intros i j. rewrite !cell_outer.
    destruct (bits !! i) as [a|], (bits !! j) as [b|]; simpl; try done.
    by rewrite andb_comm.
  - intros i Hi. rewrite cell_outer, Hcell.
    destruct (bits !! i) as [a|]; simpl; [|done]. by rewrite andb_diag.
Qed.

(** ** Selection by labels *)

Lemma positions_labelled (axis : list pyval) (k : pyval) :
  Forall (λ p, axis !! p = Some k) (positions axis k).
Proof.
  apply Forall_forall. intros p (q & -> & Hq)%elem_of_positions_from. done.
Qed.

Lemma positions_nonempty (axis : list pyval) (k : pyval) :
  k ∈ axis → (0 < length (positions axis k))%nat.
Proof.
  intros Hk. destruct (positions axis k) eqn:Hp; simpl; [|lia].
  by apply positions_from_nil in Hp.
Qed.

Lemma take_positions (axis : list pyval) (k : pyval) :
  take PNaN (positions axis k) axis = replicate (length (positions axis k)) k.
Proof.
  unfold take. induction (positions_labelled axis k) as [|p ps Hp _ IH].
  - done.
  - rewrite fmap_cons, IH, (nth_lookup_Some _ _ _ _ Hp). done.
Qed.

Lemma take_flat_map {A B} (d : A) (f : B → list nat) (keys : list B) (l : list A) :
  take d (flat_map f keys) l = flat_map (λ k, take d (f k) l) keys.
Proof.
  unfold take. induction keys as [|k keys IH]; simpl; [done|].
  by rewrite fmap_app, IH.
Qed.

Lemma take_seq {A} (d : A) (l : list A) : take d (seq 0 (length l)) l = l.
Proof.
  unfold take. apply list_eq. intros i. rewrite list_lookup_fmap.
  destruct (decide (i < length l)%nat) as [Hi|Hi].
  - rewrite lookup_seq_lt by done. simpl.
    destruct (lookup_lt_is_Some_2 l i Hi) as [x Hx].
    by rewrite Hx, (nth_lookup_Some _ _ _ _ Hx).
  - rewrite lookup_seq_ge by lia. simpl. symmetry. apply lookup_ge_None. lia.
Qed.

Lemma length_take {A} (d : A) (ps : list nat) (l : list A) :
  length (take d ps l) = length ps.
Proof. unfold take. by rewrite length_fmap. Qed.

Lemma get_indexer_Ok (axis keys : list pyval) :
  Forall (λ k, k ∈ axis) keys →
  get_indexer axis keys = Ok (flat_map (positions axis) keys).
Proof.
  intros Hkeys. unfold get_indexer.
  assert (forallb (λ k, bool_decide (k ∈ axis)) keys = true) as ->; [|done].
  apply forallb_forall. intros k Hk%list_elem_of_In.
  apply bool_decide_eq_true. by eapply Forall_forall in Hkeys.
Qed.

Lemma take_indexer (axis keys : list pyval) :
  take PNaN (flat_map (positions axis) keys) axis = blocks axis keys.
Proof.
  rewrite take_flat_map. unfold blocks.
  induction keys as [|k keys IH]; simpl; [done|].
  by rewrite take_positions, IH.
Qed.

Lemma blocks_NoDup (axis keys : list pyval) :
  NoDup axis → Forall (λ k, k ∈ axis) keys → blocks axis keys = keys.
Proof.
  intros Hnd Hkeys. unfold blocks.
  induction Hkeys as [|k keys Hk _ IH]; simpl; [done|].
  destruct (positions_single _ _ Hnd Hk) as (p & -> & _). simpl. by rewrite IH.
Qed.

Lemma indexer_NoDup (axis keys : list pyval) :
  NoDup axis → Forall (λ k, k ∈ axis) keys →
  Forall2 (λ k p, axis !! p = Some k) keys (flat_map (positions axis) keys).
Proof.
  intros Hnd Hkeys. induction Hkeys as [|k keys Hk _ IH]; simpl; [constructor|].
  destruct (positions_single _ _ Hnd Hk) as (p & -> & Hp). simpl.
  by constructor.
Qed.

Lemma elem_of_blocks (axis keys : list pyval) (k : pyval) :
  Forall (λ k, k ∈ axis) keys → k ∈ blocks axis keys ↔ k ∈ keys.
Proof.
  intros Hkeys. unfold blocks.
  induction Hkeys as [|k0 keys Hk0 _ IH]; simpl; [done|].
  rewrite elem_of_app, elem_of_cons, IH. split.
  - intros [[-> _]%elem_of_replicate|?]; auto.
  - intros [->|?]; [left|by right]. apply elem_of_replicate. split; [done|].
    pose proof (positions_nonempty _ _ Hk0). lia.
Qed.

Lemma positions_from_app (i : nat) (l1 l2 : list pyval) (k : pyval) :
  positions_from i (l1 ++ l2) k =
  positions_from i l1 k ++ positions_from (i + length l1) l2 k.
Proof.
  revert i. induction l1 as [|x l1 IH]; intros i; simpl.
  - by rewrite Nat.add_0_r.
  - rewrite IH, Nat.add_succ_r. by case_bool_decide.
Qed.

Lemma positions_from_replicate (i n : nat) (k : pyval) :
  positions_from i (replicate n k) k = seq i n.
Proof.
  revert i. induction n as [|n IH]; intros i; simpl; [done|].
  by rewrite bool_decide_eq_true_2, IH.
Qed.

Lemma flat_map_ext_elem {A B} (f g : A → list B) (l : list A) :
  (∀ x, x ∈ l → f x = g x) → flat_map f l = flat_map g l.
Proof.
  induction l as [|x l IH]; intros Hfg; simpl; [done|].
  rewrite Hfg by apply list_elem_of_here. f_equal. apply IH.
  intros y Hy. apply Hfg. by apply list_elem_of_further.
Qed.

Lemma positions_from_blocks (i : nat) (axis keys : list pyval) :
  NoDup keys → Forall (λ k, k ∈ axis) keys →
  flat_map (positions_from i (blocks axis keys)) keys
  = seq i (length (blocks axis keys)).
Proof.
  intros Hnd Hkeys. revert i.
  induction Hnd as [|k keys Hk Hnd IH]; intros i; [done|].
  apply Forall_cons in Hkeys as [Hin Hkeys].
  change (blocks axis (k :: keys))
    with (replicate (length (positions axis k)) k ++ blocks axis keys).
  set (n := length (positions axis k)). simpl.
  rewrite length_app, length_replicate, seq_app. f_equal.
  - rewrite positions_from_app, positions_from_replicate, length_replicate.
    rewrite (proj2 (positions_from_nil _ _ _)); [by rewrite app_nil_r|].
    by rewrite elem_of_blocks.
  - rewrite <- (IH Hkeys). apply flat_map_ext_elem. intros k' Hk'.
    rewrite positions_from_app, length_replicate.
    rewrite (proj2 (positions_from_nil _ _ _)); [done|].
    intros [-> _]%elem_of_replicate. done.
Qed.

Lemma loc_Ok (df : DataFrame) (keys : list pyval) :
  Forall (λ k, k ∈ index df) keys → columns df = index df →
  loc df keys keys =
    Ok {| index := blocks (index df) keys;
          columns := blocks (index df) keys;
          values := take PNaN (flat_map (positions (index df)) keys)
                      <$> take [] (flat_map (positions (index df)) keys) (values df) |}.
Proof.
  intros Hkeys Hsq. unfold loc. rewrite Hsq, get_indexer_Ok by done. simpl.
  by rewrite take_indexer.
Qed.

Lemma valid_genomes_in_index (df : DataFrame) (tips : list string) :
  Forall (λ k, k ∈ index df) (PStr <$> valid_genomes df tips).
Proof.
  apply Forall_fmap, Forall_forall. intros g Hg.
  unfold valid_genomes in Hg. by apply list_elem_of_filter in Hg as [? _].
Qed.

Lemma reorder_unfold (Phylo_read : string → result Clade) (fs : filesystem)
    (df : DataFrame) (path text : string) (tree : Clade) (tips : list string) :
  fs !! path = Some text → Phylo_read text = Ok tree →
  tip_labels (get_terminals tree) = Ok tips →
  reorder_matrix_by_tree Phylo_read fs df path
  = loc df (PStr <$> valid_genomes df tips) (PStr <$> valid_genomes df tips).
Proof.
  intros Hfs Hread Htips. unfold reorder_matrix_by_tree, read_file.
  rewrite Hfs. simpl. rewrite Hread. simpl. by rewrite Htips.
Qed.

Lemma take_lookup {A} (d : A) (ps : list nat) (l : list A) (a p : nat) :
  ps !! a = Some p → take d ps l !! a = Some (nth p l d).
Proof. intros Hp. unfold take. by rewrite list_lookup_fmap, Hp. Qed.

Lemma sublist_filter_max {A} (P : A → Prop) `{!∀ x, Decision (P x)}
    (l tips : list A) :
  l `sublist_of` tips → Forall P l → l `sublist_of` filter P tips.
Proof.
  induction 1 as [|x l1 l2 _ IH|x l1 l2 _ IH]; intros Hl.
  - constructor.
  - apply Forall_cons in Hl as [Hx Hl].
    rewrite filter_cons_True by done. constructor. by apply IH.
  - destruct (decide (P x)).
    + rewrite filter_cons_True by done. constructor. by apply IH.
    + rewrite filter_cons_False by done. by apply IH.
Qed.

Lemma filter_ext_elem {A} (P1 P2 : A → Prop)
    `{!∀ x, Decision (P1 x), !∀ x, Decision (P2 x)} (l : list A) :
  (∀ x, x ∈ l → P1 x ↔ P2 x) → filter P1 l = filter P2 l.
Proof.
  induction l as [|x l IH]; intros Hiff; [done|].
  assert (filter P1 l = filter P2 l) as Hl.
  { apply IH. intros y Hy. apply Hiff. by apply list_elem_of_further. }
  destruct (decide (P1 x)) as [Hx|Hx].
  - rewrite !filter_cons_True, Hl; try done.
    by apply Hiff; [apply list_elem_of_here|].
  - rewrite !filter_cons_False, Hl; try done.
    intros Hx'. apply Hx. by apply Hiff; [apply list_elem_of_here|].
Qed.

Lemma filter_none {A} (P : A → Prop) `{!∀ x, Decision (P x)} (l : list A) :
  (∀ x, x ∈ l → ¬ P x) → filter P l = [].
Proof.
  induction l as [|x l IH]; intros Hl; [done|].
  rewrite filter_cons_False by (apply Hl, list_elem_of_here).
  apply IH. intros y Hy. apply Hl. by apply list_elem_of_further.
Qed.

Lemma comparison_matrix_index (df M : DataFrame) (gene : string) :
  comparison_matrix df gene = Ok M → index M = index df ∧ columns M = index df.
Proof.
  unfold comparison_matrix.
  destruct (positions (columns df) (PStr gene)) as [|p [|q ps]].
  - done.
  - destruct (mapM as_int (column_at p df)); [|done]. by intros [= <-].
  - by destruct (mapM as_int _).
Qed.

Lemma blocks_nil (axis keys : list pyval) :
  Forall (λ k, k ∈ axis) keys → blocks axis keys = [] ↔ keys = [].
Proof.
  intros Hkeys. split; [|by intros ->].
  destruct Hkeys as [|k keys Hk _]; [done|]. unfold blocks. simpl.
  pose proof (positions_nonempty _ _ Hk).
  destruct (positions axis k); simpl in *; [lia | done].
Qed.

Lemma loc_index (df R : DataFrame) (keys cols : list pyval) :
  Forall (λ k, k ∈ index df) keys →
  loc df keys cols = Ok R → index R = blocks (index df) keys.
Proof.
  intros Hkeys. unfold loc. rewrite get_indexer_Ok by done. simpl.
  destruct (get_indexer (columns df) cols); [done|]. simpl.
  intros [= <-]. simpl. apply take_indexer.
Qed.

Lemma length_positions_from (i : nat) (axis : list pyval) (k : pyval) :
  length (positions_from i axis k) = count_occ pyval_eq_dec axis k.
Proof.
  revert i. induction axis as [|x axis IH]; intros i; simpl; [done|].
  unfold bool_decide, decide, decide_rel.
  destruct (pyval_eq_dec x k) as [Hd|Hd]; simpl; by rewrite IH.
Qed.

Lemma count_occ_replicate (n : nat) (x k : pyval) :
  count_occ pyval_eq_dec (replicate n x) k = if decide (x = k) then n else 0%nat.
Proof.
  unfold decide, decide_rel.
  induction n as [|n IH]; simpl; [by destruct (pyval_eq_dec x k)|].
  rewrite IH. by destruct (pyval_eq_dec x k).
Qed.

Lemma count_occ_blocks (axis keys : list pyval) (k : pyval) :
  count_occ pyval_eq_dec (blocks axis keys) k
  = (count_occ pyval_eq_dec keys k * length (positions axis k))%nat.
Proof.
  unfold blocks. induction keys as [|x keys IH]; [done|].
  cbn [flat_map]. rewrite count_occ_app, count_occ_replicate, IH.
  cbn [count_occ]. unfold decide, decide_rel.
  destruct (pyval_eq_dec x k) as [Hd|Hd]; [subst x|]; lia.
Qed.

Lemma length_blocks (axis keys : list pyval) :
  length (blocks axis keys)
  = sum_list_with (λ k, length (positions axis k)) keys.
Proof.
  unfold blocks. induction keys as [|x keys IH]; [done|].
  cbn [flat_map sum_list_with]. by rewrite length_app, length_replicate, IH.
Qed.

Lemma sum_list_with_pointwise {A} (f g : A → nat) (l : list A) :
  (∀ k, f k = g k) → sum_list_with f l = sum_list_with g l.
Proof. intros Hfg. induction l as [|x l IH]; simpl; [done|]. by rewrite Hfg, IH. Qed.

Lemma sum_list_with_scaled_le {A} (m c : A → nat) (l : list A) :
  Forall (λ k, (1 ≤ m k)%nat) l →
  (sum_list_with c l ≤ sum_list_with (λ k, m k * c k)%nat l)%nat.
Proof.
  induction 1 as [|x l Hx _ IH]; simpl; [done|]. cbv beta in Hx. nia.
Qed.

Lemma sum_list_with_scaled_eq {A} (m c : A → nat) (l : list A) :
  Forall (λ k, (1 ≤ m k)%nat ∧ (1 ≤ c k)%nat) l →
  sum_list_with (λ k, m k * c k)%nat l = sum_list_with c l →
  Forall (λ k, m k = 1%nat) l.
Proof.
  induction 1 as [|x l [Hm Hc] Hl IH]; simpl; [done|]. intros Hsum.
  assert (Forall (λ k, (1 ≤ m k)%nat) l) as Hml
    by (eapply Forall_impl; [exact Hl | by intros k [? _]]).
  pose proof (sum_list_with_scaled_le m c l Hml) as Hle.
  constructor; [nia | apply IH; nia].
Qed.

(** Selecting the same labels from an axis a second time keeps its length
    only when no label is asked for twice. *)
Lemma blocks_twice_NoDup (axis keys : list pyval) :
  Forall (λ k, k ∈ axis) keys →
  length (blocks (blocks axis keys) keys) = length (blocks axis keys) →
  NoDup keys.
Proof.
  intros Hkeys. rewrite !length_blocks. unfold positions.
  rewrite (sum_list_with_pointwise
             (λ k, length (positions_from 0 (blocks axis keys) k))
             (λ k, count_occ pyval_eq_dec keys k * length (positions_from 0 axis k))%nat).
  2:{ intros k. by rewrite length_positions_from, count_occ_blocks. }
  intros Hsum. apply sum_list_with_scaled_eq in Hsum.
  - apply NoDup_ListNoDup, (proj2 (NoDup_count_occ' pyval_eq_dec keys)).
    intros k Hk.
    rewrite Forall_forall in Hsum. apply Hsum. by apply list_elem_of_In.
  - apply Forall_forall. intros k Hk. split.
    + apply (proj1 (count_occ_In pyval_eq_dec keys k)). by apply list_elem_of_In.
    + rewrite Forall_forall in Hkeys. apply (positions_nonempty axis k). by apply Hkeys.
Qed.

(** ** The tree-order reconciler *)

Section Reconciler.

Variable Phylo_read : string → result Clade.
Variable fs : filesystem.
Variables (tree_file text : string) (tree : Clade) (tips : list string).

(** The tree file is read and parsed, and its tips are named: [tips] is
    the tree order. *)
Hypothesis tree_file_read : fs !! tree_file = Some text.
Hypothesis tree_file_parsed : Phylo_read text = Ok tree.
Hypothesis tree_order : tip_labels (get_terminals tree) = Ok tips.

(** C2.  The valid genomes are exactly the tips that are labels of the
    matrix, in tree order: a subsequence of the tree order, and the longest
    one made of labels of the matrix; a name that is only a tip or only a
    label is not among them.  The reconciler selects them on both axes at
    once.  For a comparison matrix (every row as long as the index, the
    same labels on both axes, no label twice) the ordered matrix has the
    valid genomes as its rows and as its columns, and its cell at [(a, b)]
    is the cell of the matrix at the rows and columns that carry the [a]-th
    and the [b]-th valid genome. *)
Theorem reorder_selects_valid_genomes (df : DataFrame) :
  let valid := valid_genomes df tips in
  (valid `sublist_of` tips ∧
   (∀ g, g ∈ valid ↔ g ∈ tips ∧ PStr g ∈ index df) ∧
   (∀ l, l `sublist_of` tips → Forall (λ g, PStr g ∈ index df) l →
         l `sublist_of` valid) ∧
   reorder_matrix_by_tree Phylo_read fs df tree_file
   = loc df (PStr <$> valid) (PStr <$> valid)) ∧
  (rectangular df → columns df = index df → NoDup (index df) →
   ∃ R, reorder_matrix_by_tree Phylo_read fs df tree_file = Ok R ∧
        index R = PStr <$> valid ∧ columns R = PStr <$> valid ∧
        ∀ a b ga gb pa pb,
          valid !! a = Some ga → valid !! b = Some gb →
          index df !! pa = Some (PStr ga) → index df !! pb = Some (PStr gb) →
          ∃ c, cell R a b = Some c ∧ cell df pa pb = Some c).
Proof.
  intros valid. split.
  { split; [apply sublist_filter|]. split; [|split].
    - intros g. unfold valid, valid_genomes. rewrite list_elem_of_filter. tauto.
    - intros l. apply sublist_filter_max.
    - apply (reorder_unfold _ _ _ _ _ _ _ tree_file_read tree_file_parsed tree_order). }
  intros [Hrows Hcols] Hsq Hnd.
  pose proof (valid_genomes_in_index df tips) as Hin. fold valid in Hin.
  rewrite (reorder_unfold _ _ _ _ _ _ _ tree_file_read tree_file_parsed tree_order).
  fold valid. rewrite loc_Ok by done. eexists. split; [done|]. simpl.
  rewrite blocks_NoDup by done. split; [done|]. split; [done|].
  intros a b ga gb pa pb Ha Hb Hpa Hpb.
  pose proof (indexer_NoDup _ _ Hnd Hin) as Hix.
  assert (∀ n g p, valid !! n = Some g → index df !! p = Some (PStr g) →
            flat_map (positions (index df)) (PStr <$> valid) !! n = Some p)
    as Hpos.
  { intros n g p Hn Hp.
    assert ((PStr <$> valid) !! n = Some (PStr g)) as Hk
      by by rewrite list_lookup_fmap, Hn.
    destruct (Forall2_lookup_l _ _ _ _ _ Hix Hk) as (p' & Hp' & Hlab).
    by rewrite (NoDup_lookup _ _ _ _ Hnd Hp Hlab). }
  destruct (lookup_lt_is_Some_2 (values df) pa) as [row Hrow].
  { rewrite Hrows. by eapply lookup_lt_Some. }
  destruct (lookup_lt_is_Some_2 row pb) as [c Hc].
  { rewrite (Forall_lookup_1 _ _ _ _ Hcols Hrow), Hsq. by eapply lookup_lt_Some. }
  exists c. unfold cell. simpl. rewrite list_lookup_fmap.
  rewrite (take_lookup _ _ _ a pa) by eauto. simpl.
  rewrite (take_lookup _ _ _ b pb) by eauto.
  rewrite Hrow. simpl. rewrite Hc.
  by rewrite (nth_lookup_Some _ _ _ _ Hrow), (nth_lookup_Some _ _ _ _ Hc).
Qed.

Lemma valid_genomes_blocks (M : DataFrame) (vals : list (list pyval)) :
  let keys := PStr <$> valid_genomes M tips in
  valid_genomes
    {| index := blocks (index M) keys; columns := blocks (index M) keys;
       values := vals |} tips
  = valid_genomes M tips.
Proof.
  intros keys.
  assert (Forall (λ k, k ∈ index M) keys) as Hin
    by apply valid_genomes_in_index.
  assert (∀ g, g ∈ tips →
            PStr g ∈ blocks (index M) keys ↔ PStr g ∈ index M) as Hiff.
  { intros g Hg. rewrite elem_of_blocks by done.
    unfold keys. rewrite (list_elem_of_fmap_inj PStr). unfold valid_genomes.
    rewrite list_elem_of_filter. tauto. }
  unfold valid_genomes. simpl. by apply filter_ext_elem.
Qed.

(** C8 (as amended).  Reordering a square matrix always gives a result,
    and reordering that result again by the same tree gives it once more
    (same index, same columns, same cells) exactly when no valid genome,
    that is no tip name found in the index of the matrix, is repeated
    among the tips of the tree. *)
Theorem reorder_idempotent (M : DataFrame) :
  columns M = index M →
  ∃ R, reorder_matrix_by_tree Phylo_read fs M tree_file = Ok R ∧
       (reorder_matrix_by_tree Phylo_read fs R tree_file = Ok R
        ↔ NoDup (valid_genomes M tips)).
Proof.
  intros Hsq.
  pose proof (valid_genomes_in_index M tips) as Hin.
  rewrite (reorder_unfold _ _ _ _ _ _ _ tree_file_read tree_file_parsed tree_order).
  rewrite loc_Ok by done. eexists. split; [done|].
  rewrite (reorder_unfold _ _ _ _ _ _ _ tree_file_read tree_file_parsed tree_order).
  rewrite valid_genomes_blocks.
  set (keys := PStr <$> valid_genomes M tips) in *.
  set (ri := flat_map (positions (index M)) keys).
  assert (Forall (λ k, k ∈ blocks (index M) keys) keys) as Hin'.
  { apply Forall_forall. intros k Hk. by apply elem_of_blocks. }
  split.
  - intros Hagain. apply loc_index in Hagain; [|exact Hin']. simpl in Hagain.
    apply (NoDup_fmap_1 PStr). fold keys.
    apply (blocks_twice_NoDup (index M)); [exact Hin|]. by rewrite <- Hagain.
  - intros Hnd.
    assert (NoDup keys) as Hkeys by by apply (NoDup_fmap_2 PStr).
    assert (length (blocks (index M) keys) = length ri) as Hlen.
    { unfold ri. by rewrite <- take_indexer, length_take. }
    unfold loc. simpl. rewrite get_indexer_Ok by exact Hin'.
    simpl. unfold positions. rewrite positions_from_blocks by done.
    rewrite take_seq. do 2 f_equal.
    rewrite Hlen.
    replace (length ri) with (length (take PNaN ri <$> take [] ri (values M)))
      at 2 by by rewrite length_fmap, length_take.
    rewrite take_seq. rewrite <- list_fmap_compose.
    apply list_fmap_ext. intros _ row _. simpl.
    replace (length ri) with (length (take PNaN ri row)) by apply length_take.
    apply take_seq.
Qed.

Variable to_csv : DataFrame → string.

(** C9.  When no tip of the tree is a label of the comparison matrix,
    the reconciler raises nothing: it returns the frame without rows and
    columns.  A result of the reconciler is without rows exactly when
    there is no valid genome, so the empty result is told apart from
    every populated one; and the loop over the genes writes the empty
    frame and goes on with the next gene. *)
Theorem reorder_empty_intersection (df M : DataFrame)
    (gene output_folder : string) (rest : list string) :
  (∀ g, g ∈ tips → PStr g ∉ index df) →
  comparison_matrix df gene = Ok M →
  reorder_matrix_by_tree Phylo_read fs M tree_file = Ok empty_frame ∧
  (∀ M' R', reorder_matrix_by_tree Phylo_read fs M' tree_file = Ok R' →
            index R' = [] ↔ valid_genomes M' tips = []) ∧
  gene_loop Phylo_read to_csv df output_folder tree_file (gene :: rest) fs
  = gene_loop Phylo_read to_csv df output_folder tree_file rest
      (<[os_path_join output_folder (ordered_matrix_filename gene)
           := to_csv empty_frame]> fs).
Proof.
  intros Hdisjoint HM.
  assert (reorder_matrix_by_tree Phylo_read fs M tree_file = Ok empty_frame) as Hre.
  { rewrite (reorder_unfold _ _ _ _ _ _ _ tree_file_read tree_file_parsed tree_order).
    assert (valid_genomes M tips = []) as ->; [|done].
    destruct (comparison_matrix_index _ _ _ HM) as [Hidx _].
    unfold valid_genomes. rewrite Hidx.
    apply filter_none. intros g Hg. by apply Hdisjoint. }
  split; [done|]. split.
  - intros M' R'.
    rewrite (reorder_unfold _ _ _ _ _ _ _ tree_file_read tree_file_parsed tree_order).
    intros HR'. pose proof (valid_genomes_in_index M' tips) as Hin.
    rewrite (loc_index _ _ _ _ Hin HR'), blocks_nil by done.
    split; [apply fmap_nil_inv | by intros ->].
  - simpl. rewrite HM. simpl. by rewrite Hre.
Qed.

End Reconciler.

(** ** Instances of the statements above *)

(** Closes a decidable goal by evaluation. *)
Ltac by_evaluation := apply (bool_decide_unpack _); vm_compute; exact I.

Lemma example_table_PresenceTable : PresenceTable example_table.
Proof.
  split; [split; [reflexivity | repeat constructor]|].
  split; [by_evaluation|].
  repeat constructor; first [by exists true | by exists false].
Defined.

Lemma comparison_matrix_outer_and_witness :
  ∃ M, comparison_matrix example_table "g" = Ok M ∧
       index M = index example_table ∧ columns M = index example_table ∧
       ∀ i j, (i < length (index example_table))%nat →
              (j < length (index example_table))%nat →
         ∃ bi bj, table_cell example_table i "g" = Some (bit bi) ∧
                  table_cell example_table j "g" = Some (bit bj) ∧
                  cell M i j = Some (bit (bi && bj)).
Proof.
  apply (comparison_matrix_outer_and example_table "g").
  - exact example_table_PresenceTable.
  - by_evaluation.
Defined.

Lemma comparison_matrix_symmetric_witness :
  ∃ M, comparison_matrix example_table "g" = Ok M ∧
       (∀ i j, cell M i j = cell M j i) ∧
       (∀ i, (i < length (index example_table))%nat →
             cell M i i = table_cell example_table i "g").
Proof.
  apply (comparison_matrix_symmetric example_table "g").
  - exact example_table_PresenceTable.
  - by_evaluation.
Defined.

Example comparison_matrix_example :
  comparison_matrix example_table "g" = Ok example_matrix.
Proof. reflexivity. Qed.

Example reorder_example :
  reorder_matrix_by_tree newick_reader {[ "tree.nwk" := example_tree_text ]}
    example_matrix "tree.nwk"
  = Ok {| index := [PStr "B"; PStr "A"; PStr "C"];
          columns := [PStr "B"; PStr "A"; PStr "C"];
          values := [[PInt 0; PInt 0; PInt 0];
                     [PInt 0; PInt 1; PInt 1];
                     [PInt 0; PInt 1; PInt 1]] |}.
Proof. vm_compute. reflexivity. Qed.

Example reorder_example_BD :
  reorder_matrix_by_tree newick_reader {[ "tree.nwk" := "(B,D);" ]}
    example_matrix "tree.nwk"
  = Ok {| index := [PStr "B"]; columns := [PStr "B"]; values := [[PInt 0]] |}.
Proof. vm_compute. reflexivity. Qed.

Lemma reorder_selects_valid_genomes_witness :
  valid_genomes example_matrix ["B"; "A"; "C"] `sublist_of` ["B"; "A"; "C"] ∧
  ∃ R, reorder_matrix_by_tree newick_reader {[ "tree.nwk" := example_tree_text ]}
         example_matrix "tree.nwk" = Ok R ∧
       index R = [PStr "B"; PStr "A"; PStr "C"] ∧
       columns R = [PStr "B"; PStr "A"; PStr "C"].
Proof.
  destruct (reorder_selects_valid_genomes newick_reader
              {[ "tree.nwk" := example_tree_text ]} "tree.nwk"
              example_tree_text example_tree ["B"; "A"; "C"]
              (lookup_singleton_eq _ _) ltac:(vm_compute; reflexivity)
              ltac:(vm_compute; reflexivity) example_matrix)
    as [(Hsub & _) Hordered].
  split; [exact Hsub|].
  destruct Hordered as (R & HR & Hi & Hc & _).
  - split; [reflexivity | repeat constructor].
  - reflexivity.
  - by_evaluation.
  - exists R. split; [exact HR|]. split; [exact Hi | exact Hc].
Defined.

(** A label on two rows.  The comparison matrix of a table in which two
    rows carry the label [a] is no comparison matrix in the sense above:
    the only valid genome is [a], and the selection of [a] on both axes
    has two rows and two columns. *)
Example reorder_repeats_twin_rows :
  comparison_matrix twin_table "mecA" = Ok twin_matrix
  ∧ rbind (newick_reader "(a,b);") (λ t, tip_labels (get_terminals t))
    = Ok ["a"; "b"]
  ∧ valid_genomes twin_matrix ["a"; "b"] = ["a"]
  ∧ reorder_matrix_by_tree newick_reader {[ "tree.nwk" := "(a,b);" ]}
      twin_matrix "tree.nwk" = Ok twin_matrix
  ∧ index twin_matrix ≠ PStr <$> valid_genomes twin_matrix ["a"; "b"].
Proof. repeat split; try (vm_compute; reflexivity). discriminate. Qed.

Lemma reorder_idempotent_witness :
  ∃ R, reorder_matrix_by_tree newick_reader {[ "tree.nwk" := example_tree_text ]}
         example_matrix "tree.nwk" = Ok R ∧
       reorder_matrix_by_tree newick_reader {[ "tree.nwk" := example_tree_text ]}
         R "tree.nwk" = Ok R.
Proof.
  destruct (reorder_idempotent newick_reader {[ "tree.nwk" := example_tree_text ]}
              "tree.nwk" example_tree_text example_tree ["B"; "A"; "C"]
              (lookup_singleton_eq _ _) ltac:(vm_compute; reflexivity)
              ltac:(vm_compute; reflexivity) example_matrix eq_refl)
    as (R & HR & Hiff).
  exists R. split; [exact HR|]. apply Hiff. by_evaluation.
Defined.

(** C8, counterexample.  A tree with the name [a] on two tips: the first
    reordering of a matrix of the one genome [a] has two rows, the second
    has four. *)
Lemma reorder_twice_grows :
  reorder_matrix_by_tree newick_reader {[ "tree.nwk" := "(a,a);" ]}
    single_matrix "tree.nwk"
  = Ok {| index := [PStr "a"; PStr "a"]; columns := [PStr "a"; PStr "a"];
          values := [[PInt 1; PInt 1]; [PInt 1; PInt 1]] |}
  ∧ reorder_matrix_by_tree newick_reader {[ "tree.nwk" := "(a,a);" ]}
      {| index := [PStr "a"; PStr "a"]; columns := [PStr "a"; PStr "a"];
         values := [[PInt 1; PInt 1]; [PInt 1; PInt 1]] |} "tree.nwk"
  = Ok {| index := [PStr "a"; PStr "a"; PStr "a"; PStr "a"];
          columns := [PStr "a"; PStr "a"; PStr "a"; PStr "a"];
          values := [[PInt 1; PInt 1; PInt 1; PInt 1];
                     [PInt 1; PInt 1; PInt 1; PInt 1];
                     [PInt 1; PInt 1; PInt 1; PInt 1];
                     [PInt 1; PInt 1; PInt 1; PInt 1]] |}.
Proof. split; vm_compute; reflexivity. Qed.

Lemma reorder_empty_intersection_witness :
  reorder_matrix_by_tree newick_reader {[ "tree.nwk" := "(X,Y);" ]}
    example_matrix "tree.nwk" = Ok empty_frame ∧
  (∀ M' R', reorder_matrix_by_tree newick_reader {[ "tree.nwk" := "(X,Y);" ]}
              M' "tree.nwk" = Ok R' →
            index R' = [] ↔ valid_genomes M' ["X"; "Y"] = []) ∧
  gene_loop newick_reader csv_text example_table "out" "tree.nwk" ["g"; "h"]
    {[ "tree.nwk" := "(X,Y);" ]}
  = gene_loop newick_reader csv_text example_table "out" "tree.nwk" ["h"]
      (<[os_path_join "out" (ordered_matrix_filename "g")
           := csv_text empty_frame]> {[ "tree.nwk" := "(X,Y);" ]}).
Proof.
  apply (reorder_empty_intersection newick_reader
           {[ "tree.nwk" := "(X,Y);" ]} "tree.nwk" "(X,Y);"
           (MkClade None [MkClade (Some "X") []; MkClade (Some "Y") []])
           ["X"; "Y"] (lookup_singleton_eq _ _) ltac:(vm_compute; reflexivity) ltac:(vm_compute; reflexivity) csv_text example_table
           example_matrix "g" "out" ["h"]).
  - intros g Hg. apply (bool_decide_unpack _).
    apply elem_of_cons in Hg as [->|Hg]; [exact I|].
    apply elem_of_cons in Hg as [->|Hg]; [exact I|].
    by apply elem_of_nil in Hg.
  - reflexivity.
Defined.

(** ** The flattening step *)

Lemma rbind_assoc {A B C} (m : result A) (f : A → result B) (g : B → result C) :
  rbind (rbind m f) g = rbind m (λ a, rbind (f a) g).
Proof. by destruct m. Qed.

Lemma copy_all_app (cs1 cs2 : list (string * string)) (fs : filesystem) :
  copy_all (cs1 ++ cs2) fs = rbind (copy_all cs1 fs) (copy_all cs2).
Proof.
  revert fs. induction cs1 as [|[src dst] cs1 IH]; intros fs; simpl; [done|].
  rewrite rbind_assoc. destruct (copy2 src dst fs); simpl; [done | apply IH].
Qed.

Lemma copy_files_copies (root out : string) (files : list string) (fs : filesystem) :
  copy_files root out files fs = copy_all (copies_of_dir out root files) fs.
Proof.
  unfold copies_of_dir. revert fs.
  induction files as [|file files IH]; intros fs; simpl; [done|].
  destruct (Str.endswith ".gff" file) eqn:Hgff.
  - rewrite filter_cons_True by done. rewrite fmap_cons. simpl.
    destruct (copy2 _ _ fs); simpl; [done | apply IH].
  - rewrite filter_cons_False by (by rewrite Hgff). apply IH.
Qed.

Lemma copy_dirs_copies (out : string) (w : walk) (fs : filesystem) :
  copy_dirs out w fs = copy_all (copies out w) fs.
Proof.
  revert fs. induction w as [|[root files] w IH]; intros fs; simpl; [done|].
  rewrite copy_all_app, copy_files_copies.
  destruct (copy_all _ fs); simpl; [done | apply IH].
Qed.


Lemma last_source_None (cs : list (string * string)) (p : string) :
  p ∉ cs.*2 → last_source cs p = None.
Proof.
  induction cs as [|[src dst] cs IH]; simpl; [done|].
  rewrite not_elem_of_cons. intros [Hne Hp]. rewrite IH by done.
  by rewrite bool_decide_eq_false_2.
Qed.

(** The copies all succeed when the sources stay apart from the
    destinations, and every path then holds what its last copy read. *)
Lemma copy_all_sources_apart (dsts : list string) (fs0 : filesystem)
    (cs : list (string * string)) (fs : filesystem) :
  Forall (λ c, is_Some (fs0 !! c.1) ∧ (c.1 ∉ dsts) ∧ (c.2 ∈ dsts)) cs →
  (∀ p, p ∉ dsts → fs !! p = fs0 !! p) →
  ∃ fs', copy_all cs fs = Ok fs' ∧
         ∀ p, fs' !! p = match last_source cs p with
                         | Some src => fs0 !! src
                         | None => fs !! p
                         end.
Proof.
  intros Hcs. revert fs. induction Hcs as [|[src dst] cs (Hsrc & Hapart & Hdst) _ IH];
    intros fs Hfs; simpl in *.
  - by exists fs.
  - unfold copy2. rewrite (Hfs src Hapart).
    destruct Hsrc as [text Htext]. rewrite Htext.
    rewrite bool_decide_eq_false_2 by (intros ->; done). simpl.
    destruct (IH (<[dst := text]> fs)) as (fs' & Hcopy & Hlook).
    { intros p Hp. rewrite lookup_insert_ne by (intros ->; done). by apply Hfs. }
    exists fs'. split; [done|]. intros p. rewrite Hlook.
    destruct (last_source cs p); [done|].
    case_bool_decide as Hp.
    + subst p. by rewrite lookup_insert_eq.
    + by rewrite lookup_insert_ne.
Qed.

Lemma copy_all_last (cs : list (string * string)) (fs : filesystem) :
  sources_apart cs fs →
  ∃ fs', copy_all cs fs = Ok fs' ∧
         ∀ p, fs' !! p = match last_source cs p with
                         | Some src => fs !! src
                         | None => fs !! p
                         end.
Proof.
  intros Hcs. apply (copy_all_sources_apart cs.*2); [|done].
  unfold sources_apart in Hcs. rewrite Forall_forall in Hcs.
  apply Forall_forall. intros c Hc. destruct (Hcs c Hc) as [? ?].
  repeat split; try done. by apply list_elem_of_fmap_2.
Qed.







Example copy_gff_files_example :
  copy_gff_files
    (λ _, [("in/g1", ["x.gff"; "notes.txt"]); ("in/g2", ["x.gff"])])
    "in" "out/gff" {[ "in/g1/x.gff" := "one"; "in/g2/x.gff" := "two" ]}
  = Ok {[ "in/g1/x.gff" := "one"; "in/g2/x.gff" := "two";
          "out/gff/x.gff" := "two" ]}.
Proof. vm_compute. reflexivity. Qed.

(** ** Presence dictionaries *)

Lemma dict_keys_set_in {V} (k : string) (v : V) (d : dict V) :
  k ∈ dict_keys d → dict_keys (dict_set k v d) = dict_keys d.
Proof.
  unfold dict_keys. induction d as [|[k' v'] d IH].
  - by intros ?%elem_of_nil.
  - rewrite fmap_cons. cbn [dict_set fst]. case_bool_decide as Hk.
    + subst k'. by rewrite fmap_cons.
    + intros [?|Hin]%elem_of_cons; [congruence|].
      rewrite fmap_cons. cbn [fst]. f_equal. by apply IH.
Qed.

Lemma dict_set_fresh {V} (k : string) (v : V) (d : dict V) :
  k ∉ dict_keys d → dict_set k v d = d ++ [(k, v)].
Proof.
  unfold dict_keys. induction d as [|[k' v'] d IH]; [done|].
  rewrite fmap_cons, not_elem_of_cons. cbn [dict_set fst]. intros [Hne Hin].
  rewrite bool_decide_eq_false_2 by congruence. by rewrite IH.
Qed.

Lemma dict_set_Forall {V} (P : string * V → Prop) (k : string) (v : V) (d : dict V) :
  P (k, v) → Forall P d → Forall P (dict_set k v d).
Proof.
  intros Hkv. induction 1 as [|[k' v'] d Hx Hd IH]; simpl.
  - by repeat constructor.
  - case_bool_decide; constructor; done.
Qed.

Lemma dict_set_presence (k : string) (v : Z) (d : dict Z) :
  v = 0 ∨ v = 1 → presence_dict d → presence_dict (dict_set k v d).
Proof.
  intros Hv [Hnd Hbits]. split; [|by apply dict_set_Forall].
  destruct (decide (k ∈ dict_keys d)) as [Hin|Hin].
  - by rewrite dict_keys_set_in.
  - rewrite dict_set_fresh by done. unfold dict_keys in *.
    rewrite fmap_app. simpl. apply NoDup_app. split; [done|].
    split; [|apply NoDup_singleton].
    intros x Hx ->%list_elem_of_singleton. done.
Qed.

Lemma initial_presence (target_genes : list string) (d : dict Z) :
  presence_dict d →
  presence_dict (fold_left (λ d gene, dict_set gene 0 d) target_genes d) ∧
  ∀ g, g ∈ dict_keys (fold_left (λ d gene, dict_set gene 0 d) target_genes d)
       ↔ g ∈ dict_keys d ∨ g ∈ target_genes.
Proof.
  revert d. induction target_genes as [|gene genes IH]; intros d Hd; simpl.
  - split; [done|]. intros g. rewrite elem_of_nil. tauto.
  - destruct (IH (dict_set gene 0 d)) as [Hp Hk].
    { apply dict_set_presence; auto. }
    split; [done|]. intros g. rewrite Hk, elem_of_cons.
    destruct (decide (gene ∈ dict_keys d)) as [Hin|Hin].
    + rewrite dict_keys_set_in by done. split; [tauto|].
      intros [?|[->|?]]; auto.
    + rewrite dict_set_fresh by done. unfold dict_keys. rewrite fmap_app.
      simpl. rewrite elem_of_app, list_elem_of_singleton. tauto.
Qed.

Lemma parse_line_keys (target_genes : list string) (d : dict Z) (line : string) :
  (∀ g, g ∈ target_genes → g ∈ dict_keys d) → presence_dict d →
  dict_keys (parse_line target_genes d line) = dict_keys d ∧
  presence_dict (parse_line target_genes d line).
Proof.
  intros Hgenes Hd. unfold parse_line.
  destruct (negb _); [|done]. case_bool_decide; [|done].
  destruct (re_search_Name _) as [gene_name|]; [|done].
  case_bool_decide as Hin; [|done].
  split; [apply dict_keys_set_in; auto | apply dict_set_presence; auto].
Qed.

Lemma parse_lines_keys (target_genes : list string) (lines : list string) (d : dict Z) :
  (∀ g, g ∈ target_genes → g ∈ dict_keys d) → presence_dict d →
  dict_keys (fold_left (parse_line target_genes) lines d) = dict_keys d ∧
  presence_dict (fold_left (parse_line target_genes) lines d).
Proof.
  revert d. induction lines as [|line lines IH]; intros d Hgenes Hd; simpl; [done|].
  destruct (parse_line_keys target_genes d line Hgenes Hd) as [Hk Hp].
  destruct (IH (parse_line target_genes d line)) as [Hk' Hp'];
    [by rewrite Hk | done |].
  split; [congruence | done].
Qed.

Lemma parse_gff_Ok (fs : filesystem) (file_path text : string)
    (target_genes : list string) :
  fs !! file_path = Some text →
  ∃ gp, parse_gff fs file_path target_genes = Ok (genome_name_of file_path, gp) ∧
        dict_keys gp = gene_keys target_genes ∧ presence_dict gp.
Proof.
  intros Hfs. unfold parse_gff, read_file. rewrite Hfs. simpl.
  eexists. split; [done|].
  destruct (initial_presence target_genes []) as [Hp Hk].
  { split; [constructor | constructor]. }
  apply parse_lines_keys; [|done]. intros g Hg. apply Hk. by right.
Qed.

Lemma dict_update_fresh {V} (e d : dict V) :
  NoDup (dict_keys d ++ dict_keys e) → dict_update d e = d ++ e.
Proof.
  unfold dict_update. revert d. induction e as [|[k v] e IH]; intros d Hnd.
  - by rewrite app_nil_r.
  - unfold dict_keys in Hnd. rewrite fmap_cons in Hnd. cbn [fst] in Hnd.
    cbn [fold_left fst snd]. rewrite dict_set_fresh.
    + rewrite IH; [by rewrite <- app_assoc|].
      unfold dict_keys. rewrite fmap_app, <- app_assoc. done.
    + apply NoDup_app in Hnd as (_ & Hd & _). intros Hk.
      apply (Hd k Hk), list_elem_of_here.
Qed.

Lemma presence_record_cons (genome_name : string) (gp : dict Z) :
  NoDup (dict_keys gp) → "Genome" ∉ dict_keys gp →
  presence_record genome_name gp
  = ("Genome", PStr genome_name) :: (prod_map id PInt <$> gp).
Proof.
  intros Hnd Hfresh. unfold presence_record.
  assert (dict_keys (prod_map id PInt <$> gp) = dict_keys gp) as Hkeys.
  { unfold dict_keys. rewrite <- list_fmap_compose. apply list_fmap_ext.
    by intros _ [k v] _. }
  rewrite dict_update_fresh; [done|]. rewrite Hkeys.
  change (NoDup ("Genome" :: dict_keys gp)). by constructor.
Qed.

Lemma dict_values_lookup {V} (dflt : V) (d : dict V) :
  NoDup (dict_keys d) →
  (λ c, default dflt (dict_get c d)) <$> dict_keys d = d.*2.
Proof.
  unfold dict_keys. induction d as [|[k v] d IH]; [done|].
  rewrite !fmap_cons. cbn [fst snd]. intros [Hk Hnd]%NoDup_cons.
  f_equal.
  - simpl. by rewrite bool_decide_eq_true_2.
  - rewrite <- IH by done. apply list_fmap_ext. intros i c Hc. simpl.
    rewrite bool_decide_eq_false_2; [done|].
    intros ->. apply Hk. by eapply list_elem_of_lookup_2.
Qed.

Lemma filter_all {A} (P : A → Prop) `{!∀ x, Decision (P x)} (l : list A) :
  (∀ x, x ∈ l → P x) → filter P l = l.
Proof.
  induction l as [|x l IH]; intros Hl; [done|].
  rewrite filter_cons_True by (apply Hl, list_elem_of_here).
  f_equal. apply IH. intros y Hy. apply Hl. by apply list_elem_of_further.
Qed.

Lemma union_of_equal_keys {V} (keys : list string) (rs : list (dict V)) :
  Forall (λ r, dict_keys r = keys) rs →
  fold_left (λ acc r, acc ++ filter (λ k, k ∉ acc) (dict_keys r)) rs keys = keys.
Proof.
  induction 1 as [|r rs Hr _ IH]; simpl; [done|].
  rewrite Hr, filter_none, app_nil_r; [done|]. by intros x Hx Hno.
Qed.

(** The frame of the records of at least one parsed file, once the genome
    names are its index. *)
Lemma frame_of_parsed (keys : list string) (parsed : list (string * dict Z)) :
  parsed ≠ [] → NoDup keys → "Genome" ∉ keys →
  Forall (λ x, dict_keys x.2 = keys) parsed →
  set_index (PStr "Genome")
    (DataFrame_of_records ((λ x, presence_record x.1 x.2) <$> parsed))
  = Ok {| index := (λ x, PStr x.1) <$> parsed;
          columns := PStr <$> keys;
          values := (λ x, PInt <$> x.2.*2) <$> parsed |}.
Proof.
  intros Hne Hnd Hfresh Hkeys.
  pose (record := λ x : string * dict Z,
          ("Genome", PStr x.1) :: (prod_map id PInt <$> x.2)).
  assert ((λ x : string * dict Z, presence_record x.1 x.2) <$> parsed
          = record <$> parsed) as ->.
  { apply list_fmap_ext. intros i x Hx.
    pose proof (Forall_lookup_1 _ _ _ _ Hkeys Hx) as Hk. cbv beta in Hk.
    rewrite <- Hk in Hnd, Hfresh. by apply presence_record_cons. }
  assert (Forall (λ r, dict_keys r = "Genome" :: keys) (record <$> parsed))
    as Hrecords.
  { apply Forall_fmap, Forall_forall. intros x Hx. unfold compose, record.
    rewrite Forall_forall in Hkeys. rewrite <- (Hkeys x Hx).
    unfold dict_keys. rewrite fmap_cons. cbn [fst]. f_equal.
    rewrite <- list_fmap_compose. apply list_fmap_ext. by intros _ [k v] _. }
  assert (fold_left (λ acc r, acc ++ filter (λ k, k ∉ acc) (dict_keys r))
            (record <$> parsed) [] = "Genome" :: keys) as Hcols.
  { destruct parsed as [|x parsed]; [done|]. rewrite fmap_cons in *.
    apply Forall_cons in Hrecords as [Hx Hrest]. cbn [fold_left].
    rewrite Hx, app_nil_l, filter_all; [by apply union_of_equal_keys|].
    intros k _. apply not_elem_of_nil. }
  unfold DataFrame_of_records. rewrite Hcols. unfold set_index.
  cbn [columns]. rewrite fmap_cons. unfold positions. cbn [positions_from].
  rewrite bool_decide_eq_true_2 by done.
  rewrite (proj2 (positions_from_nil _ _ _)).
  2:{ by rewrite (list_elem_of_fmap_inj PStr). }
  unfold column_at. cbn [values index columns]. f_equal.
  assert (∀ x, x ∈ parsed →
            (λ c, default PNaN (dict_get c (record x))) <$> "Genome" :: keys
            = PStr x.1 :: (PInt <$> x.2.*2)) as Hrow.
  { intros x Hx. rewrite Forall_forall in Hrecords.
    rewrite <- (Hrecords (record x)) by by apply list_elem_of_fmap_2.
    rewrite dict_values_lookup.
    - unfold record. rewrite fmap_cons. simpl. f_equal.
      rewrite <- !list_fmap_compose. apply list_fmap_ext. by intros _ [k v] _.
    - rewrite (Hrecords (record x)) by by apply list_elem_of_fmap_2.
      by constructor. }
  f_equal.
  - rewrite <- !list_fmap_compose. apply list_fmap_ext. intros i x Hx.
    unfold compose. cbv beta.
    rewrite Hrow by by eapply list_elem_of_lookup_2. done.
  - rewrite <- !list_fmap_compose. apply list_fmap_ext. intros i x Hx.
    unfold compose. cbv beta.
    rewrite Hrow by by eapply list_elem_of_lookup_2. done.
Qed.

Lemma gene_keys_spec (target_genes : list string) :
  NoDup (gene_keys target_genes) ∧
  ∀ g, g ∈ gene_keys target_genes ↔ g ∈ target_genes.
Proof.
  destruct (initial_presence target_genes []) as [[Hnd _] Hk].
  { split; constructor. }
  split; [done|]. intros g. unfold gene_keys. rewrite Hk.
  unfold dict_keys. simpl. rewrite elem_of_nil. tauto.
Qed.

Lemma presence_of_spec (fs : filesystem) (file_path : string)
    (target_genes : list string) :
  is_Some (fs !! file_path) →
  parse_gff fs file_path target_genes
  = Ok (genome_name_of file_path, presence_of fs file_path target_genes) ∧
  dict_keys (presence_of fs file_path target_genes) = gene_keys target_genes ∧
  presence_dict (presence_of fs file_path target_genes).
Proof.
  intros [text Htext].
  destruct (parse_gff_Ok fs file_path text target_genes Htext) as (gp & Hgp & ? & ?).
  unfold presence_of. by rewrite Hgp.
Qed.

Lemma parse_files_Ok (fs : filesystem) (folder_path : string)
    (target_genes file_list : list string) :
  Forall (λ f, is_Some (fs !! os_path_join folder_path f)) file_list →
  parse_files fs folder_path target_genes file_list
  = Ok ((λ x, presence_record x.1 x.2) <$>
          ((λ f, (genome_name_of (os_path_join folder_path f),
                  presence_of fs (os_path_join folder_path f) target_genes))
             <$> file_list)).
Proof.
  induction 1 as [|f files Hf _ IH]; [done|].
  cbn [parse_files]. rewrite IH.
  destruct (presence_of_spec fs _ target_genes Hf) as (-> & _). done.
Qed.

Section Driver.

Variable os_listdir : string → option (list string).
Variable os_getctime : string → Z.
Variable fs : filesystem.
Variables (folder_path : string) (target_genes file_list : list string).

(** The folder lists at least one annotation file, every annotation file
    can be read, and no gene is called [Genome]. *)
Hypothesis listed : gff_file_list os_listdir os_getctime folder_path = Ok file_list.
Hypothesis some_file : file_list ≠ [].
Hypothesis readable :
  Forall (λ f, is_Some (fs !! os_path_join folder_path f)) file_list.
Hypothesis genes_named : "Genome" ∉ target_genes.

(** C1 (as amended).  Building the presence table raises nothing on
    account of the genome names: the table has one row for every
    annotation file, in the order of the file list, labelled with the
    genome name of the file and holding the presence vector of the file.
    Two files with one genome name give two rows with one label. *)
Theorem presence_table_keeps_every_file :
  ∃ df, presence_table os_listdir os_getctime fs folder_path target_genes = Ok df ∧
        index df = (λ f, PStr (genome_name_of (os_path_join folder_path f)))
                     <$> file_list ∧
        columns df = PStr <$> gene_keys target_genes ∧
        values df = (λ f, presence_row fs (os_path_join folder_path f) target_genes)
                      <$> file_list.
Proof.
  unfold presence_table. rewrite listed. simpl.
  rewrite parse_files_Ok by done. simpl.
  destruct (gene_keys_spec target_genes) as [Hnd Hkeys].
  rewrite (frame_of_parsed (gene_keys target_genes)).
  - eexists. split; [done|]. simpl.
    rewrite <- !list_fmap_compose. done.
  - by destruct file_list.
  - done.
  - by rewrite Hkeys.
  - apply Forall_fmap, Forall_forall. intros f Hf.
    rewrite Forall_forall in readable.
    by destruct (presence_of_spec fs _ target_genes (readable f Hf)) as (_ & ? & _).
Qed.

Lemma presence_table_built :
  ∃ df, presence_table os_listdir os_getctime fs folder_path target_genes = Ok df ∧
        PresenceTable df ∧ ∀ g, g ∈ target_genes → PStr g ∈ columns df.
Proof.
  unfold presence_table. rewrite listed. simpl.
  rewrite parse_files_Ok by done. simpl.
  destruct (gene_keys_spec target_genes) as [Hnd Hkeys].
  assert (Forall (λ f, dict_keys (presence_of fs (os_path_join folder_path f) target_genes)
                       = gene_keys target_genes ∧
                       presence_dict (presence_of fs (os_path_join folder_path f) target_genes))
            file_list) as Hall.
  { apply Forall_forall. intros f Hf. rewrite Forall_forall in readable.
    by destruct (presence_of_spec fs _ target_genes (readable f Hf)) as (_ & ? & ?). }
  rewrite (frame_of_parsed (gene_keys target_genes)).
  - eexists. split; [done|].
    split; [|intros g Hg; simpl; by apply list_elem_of_fmap_2, Hkeys].
    split; [|split].
    + split; simpl; [by rewrite !length_fmap|].
      apply Forall_fmap, Forall_fmap, Forall_forall. intros f Hf.
      rewrite Forall_forall in Hall. destruct (Hall f Hf) as [Hk _].
      unfold compose. simpl. rewrite !length_fmap.
      rewrite <- Hk. unfold dict_keys. by rewrite length_fmap.
    + simpl. by apply (NoDup_fmap_2 PStr).
    + simpl. apply Forall_fmap, Forall_fmap, Forall_forall. intros f Hf.
      rewrite Forall_forall in Hall. destruct (Hall f Hf) as [_ [_ Hbits]].
      unfold compose. simpl. apply Forall_fmap, Forall_fmap.
      eapply Forall_impl; [exact Hbits|]. intros [k v] [Hv|Hv]; simpl in *;
        subst v; [by exists false | by exists true].
  - by destruct file_list.
  - done.
  - by rewrite Hkeys.
  - apply Forall_fmap. eapply Forall_impl; [exact Hall|]. by intros f [? _].
Qed.

Variable Phylo_read : string → result Clade.
Variable to_csv : DataFrame → string.


End Driver.

(** ** Instances for the driver *)

Lemma presence_table_keeps_every_file_witness :
  ∃ df, presence_table twin_listdir twin_getctime (twin_fs "(a,b);") "gff" ["mecA"]
        = Ok df ∧
        index df = (λ f, PStr (genome_name_of (os_path_join "gff" f)))
                     <$> ["a.gff"; "a.gff.gff"] ∧
        columns df = PStr <$> gene_keys ["mecA"] ∧
        values df = (λ f, presence_row (twin_fs "(a,b);") (os_path_join "gff" f) ["mecA"])
                      <$> ["a.gff"; "a.gff.gff"].
Proof.
  apply (presence_table_keeps_every_file twin_listdir twin_getctime
           (twin_fs "(a,b);") "gff" ["mecA"] ["a.gff"; "a.gff.gff"]).
  - vm_compute. reflexivity.
  - discriminate.
  - by_evaluation.
  - by_evaluation.
Defined.

(** C1, counterexample.  Two annotation files of one folder with the same
    genome name: the presence table is built, nothing is raised, and the
    table has two rows labelled [a]. *)
Lemma presence_table_accepts_twin_names :
  genome_name_of (os_path_join "gff" "a.gff") = "a"
  ∧ genome_name_of (os_path_join "gff" "a.gff.gff") = "a"
  ∧ presence_table twin_listdir twin_getctime (twin_fs "(a,b);") "gff" ["mecA"]
    = Ok twin_table.
Proof. repeat split; vm_compute; reflexivity. Qed.



Example process_gff_folder_example :
  (process_gff_folder twin_listdir twin_getctime newick_reader csv_text
     "gff" ["mecA"] "out" "tree.nwk" "HGT" (twin_fs "(b,a);")).1 = Ok ()
  ∧ (process_gff_folder twin_listdir twin_getctime newick_reader csv_text
       "gff" ["mecA"] "out" "tree.nwk" "HGT" (twin_fs "(b,a);")).2
      !! "out/mecA_comparison_matrix_ordered_by_tree.csv"
    = Some (csv_text twin_matrix).
Proof. split; vm_compute; reflexivity. Qed.

(** * Further properties of the script *)

(** ** The parser on a whole file *)

Lemma parse_line_named_gene (target_genes : list string) (gp : dict Z) (line : string) :
  parse_line target_genes gp line =
  match named_gene line with
  | Some gene_name =>
      if bool_decide (gene_name ∈ target_genes) then dict_set gene_name 1 gp else gp
  | None => gp
  end.
Proof.
  unfold parse_line, named_gene.
  destruct (negb _); [|done]. by case_bool_decide.
Qed.

Lemma named_gene_spec (line gene : string) :
  named_gene line = Some gene ↔ record_names line gene.
Proof.
  unfold named_gene, record_names.
  destruct (Str.startswith "#" line); simpl.
  - split; [done | by intros [? _]].
  - case_bool_decide as Hlen.
    + rewrite re_search_Name_spec. tauto.
    + split; [done | tauto].
Qed.

Lemma parse_line_bit (target_genes : list string) (gp : dict Z) (line gene : string) :
  gene ∈ target_genes →
  dict_get gene (parse_line target_genes gp line) = Some 1
  ↔ dict_get gene gp = Some 1 ∨ named_gene line = Some gene.
Proof.
  intros Hgene. rewrite parse_line_named_gene.
  destruct (named_gene line) as [n|]; [|split; [tauto | by intros [?|?]]].
  destruct (decide (n = gene)) as [->|Hne].
  - rewrite bool_decide_eq_true_2, dict_get_set_eq by done. tauto.
  - assert (dict_get gene (if bool_decide (n ∈ target_genes)
                           then dict_set n 1 gp else gp) = dict_get gene gp) as ->.
    { case_bool_decide; [|done]. by rewrite dict_get_set_ne. }
    split; [tauto | intros [?|?]; [done | congruence]].
Qed.

Lemma parse_lines_bit (target_genes lines : list string) (gp : dict Z) (gene : string) :
  gene ∈ target_genes →
  dict_get gene (fold_left (parse_line target_genes) lines gp) = Some 1
  ↔ dict_get gene gp = Some 1 ∨ ∃ line, line ∈ lines ∧ named_gene line = Some gene.
Proof.
  intros Hgene. revert gp. induction lines as [|line lines IH]; intros gp; simpl.
  - split; [tauto | intros [?|(l & ?%elem_of_nil & _)]; done].
  - rewrite IH, parse_line_bit by done. split.
    + intros [[?|?]|(l & Hl & ?)]; eauto.
      * right. exists line. split; [apply list_elem_of_here | done].
      * right. exists l. split; [by apply list_elem_of_further | done].
    + intros [?|(l & [->|Hl]%elem_of_cons & ?)]; eauto.
Qed.

Lemma initial_presence_zero (target_genes : list string) (d : dict Z) (gene : string) :
  gene ∈ target_genes ∨ dict_get gene d = Some 0 →
  dict_get gene (fold_left (λ d gene, dict_set gene 0 d) target_genes d) = Some 0.
Proof.
  revert d. induction target_genes as [|g genes IH]; intros d; simpl.
  - intros [?%elem_of_nil|?]; done.
  - intros [[->|Hin]%elem_of_cons|Hd]; apply IH; auto.
    + right. apply dict_get_set_eq.
    + right. destruct (decide (gene = g)) as [->|Hne];
        [apply dict_get_set_eq | by rewrite dict_get_set_ne].
Qed.

Lemma presence_dict_get (d : dict Z) (k : string) :
  presence_dict d → k ∈ dict_keys d → dict_get k d = Some 0 ∨ dict_get k d = Some 1.
Proof.
  intros [_ Hbits]. unfold dict_keys.
  induction Hbits as [|[k' v] d Hv _ IH]; [by intros ?%elem_of_nil|].
  rewrite fmap_cons. cbn [fst dict_get]. case_bool_decide as Hk.
  - intros _. simpl in Hv. destruct Hv as [->| ->]; auto.
  - intros [?|Hin]%elem_of_cons; [congruence | by apply IH].
Qed.

(** X1.  The presence bit of a gene of the gene set, after a whole file:
    it is 1 when some line of the file is a feature record whose [Name]
    value is the gene, and 0 otherwise, whatever the order and the number
    of such records. *)
Theorem parse_gff_presence (fs : filesystem) (file_path text : string)
    (target_genes : list string) (gene : string) :
  fs !! file_path = Some text → gene ∈ target_genes →
  ∃ gp, parse_gff fs file_path target_genes = Ok (genome_name_of file_path, gp) ∧
        (dict_get gene gp = Some 1
         ↔ ∃ line, line ∈ Str.lines text ∧ record_names line gene) ∧
        (dict_get gene gp = Some 0
         ↔ ¬ ∃ line, line ∈ Str.lines text ∧ record_names line gene).
Proof.
  intros Hfs Hgene.
  destruct (parse_gff_Ok fs file_path text target_genes Hfs) as (gp & Hgp & Hkeys & Hdict).
  exists gp. split; [done|].
  assert (dict_get gene gp = Some 1
          ↔ ∃ line, line ∈ Str.lines text ∧ record_names line gene) as Hone.
  { unfold parse_gff, read_file in Hgp. rewrite Hfs in Hgp. simpl in Hgp.
    injection Hgp as <-. rewrite parse_lines_bit by done.
    rewrite initial_presence_zero by auto.
    setoid_rewrite named_gene_spec. split; [by intros [?|?] | auto]. }
  split; [done|]. rewrite <- Hone.
  destruct (presence_dict_get gp gene Hdict) as [Hz|Hz].
  { rewrite Hkeys. by apply gene_keys_spec. }
  - rewrite Hz. split; [congruence | done].
  - rewrite Hz. split; [congruence | done].
Qed.

Lemma parse_gff_presence_witness :
  ∃ gp, parse_gff (twin_fs "(a,b);") "gff/a.gff" ["mecA"; "gyrA"]
        = Ok (genome_name_of "gff/a.gff", gp) ∧
        (dict_get "mecA" gp = Some 1
         ↔ ∃ line, line ∈ Str.lines
                     (gff_record ["chr1"; "src"; "gene"; "1"; "900"; "."; "+"; ".";
                                  "ID=g1;Name=mecA"]) ∧
                   record_names line "mecA") ∧
        (dict_get "mecA" gp = Some 0
         ↔ ¬ ∃ line, line ∈ Str.lines
                       (gff_record ["chr1"; "src"; "gene"; "1"; "900"; "."; "+"; ".";
                                    "ID=g1;Name=mecA"]) ∧
                     record_names line "mecA").
Proof.
  apply (parse_gff_presence (twin_fs "(a,b);") "gff/a.gff" _ ["mecA"; "gyrA"] "mecA").
  - vm_compute. reflexivity.
  - by_evaluation.
Defined.

Lemma initial_keys_fresh (target_genes : list string) (d : dict Z) :
  NoDup (dict_keys d ++ target_genes) →
  dict_keys (fold_left (λ d gene, dict_set gene 0 d) target_genes d)
  = dict_keys d ++ target_genes.
Proof.
  revert d. induction target_genes as [|g genes IH]; intros d Hnd; simpl.
  - by rewrite app_nil_r.
  - assert (g ∉ dict_keys d) as Hfresh.
    { apply NoDup_app in Hnd as (_ & Hd & _). intros Hg.
      apply (Hd g Hg), list_elem_of_here. }
    rewrite IH; rewrite dict_set_fresh by done; unfold dict_keys;
      rewrite fmap_app; simpl; by rewrite <- app_assoc.
Qed.

(** X2.  The presence vector of a readable file has one entry for every
    gene of the gene set and no other, each entry 0 or 1, and no key
    twice; when the gene set has no repetition the keys are the gene set
    in its order. *)
Theorem parse_gff_vector_shape (fs : filesystem) (file_path text : string)
    (target_genes : list string) :
  fs !! file_path = Some text →
  ∃ gp, parse_gff fs file_path target_genes = Ok (genome_name_of file_path, gp) ∧
        NoDup (dict_keys gp) ∧
        (∀ g, g ∈ dict_keys gp ↔ g ∈ target_genes) ∧
        Forall (λ kv, kv.2 = 0 ∨ kv.2 = 1) gp ∧
        (NoDup target_genes → dict_keys gp = target_genes).
Proof.
  intros Hfs.
  destruct (parse_gff_Ok fs file_path text target_genes Hfs)
    as (gp & Hgp & Hkeys & Hnd & Hbits).
  exists gp. split; [done|]. split; [done|].
  destruct (gene_keys_spec target_genes) as [_ Hiff].
  split; [by rewrite Hkeys|]. split; [done|].
  intros Hgenes. rewrite Hkeys. unfold gene_keys.
  by rewrite initial_keys_fresh.
Qed.

Lemma parse_gff_vector_shape_witness :
  ∃ gp, parse_gff (twin_fs "(a,b);") "gff/a.gff" ["mecA"; "gyrA"; "mecA"]
        = Ok (genome_name_of "gff/a.gff", gp) ∧
        NoDup (dict_keys gp) ∧
        (∀ g, g ∈ dict_keys gp ↔ g ∈ ["mecA"; "gyrA"; "mecA"]) ∧
        Forall (λ kv, kv.2 = 0 ∨ kv.2 = 1) gp ∧
        (NoDup ["mecA"; "gyrA"; "mecA"] → dict_keys gp = ["mecA"; "gyrA"; "mecA"]).
Proof.
  eapply (parse_gff_vector_shape (twin_fs "(a,b);") "gff/a.gff").
  vm_compute. reflexivity.
Defined.

(** ** Genome names of plain file names *)

Lemma string_app_assoc (a b c : string) : (a +:+ b) +:+ c = a +:+ b +:+ c.
Proof.
  induction a as [|x a IH]; [done|].
  change (String x ((a +:+ b) +:+ c) = String x (a +:+ b +:+ c)). by rewrite IH.
Qed.

Lemma string_app_cons (x : ascii) (a b : string) :
  String x a +:+ b = String x (a +:+ b).
Proof. done. Qed.

Lemma string_app_nil_r (a : string) : a +:+ "" = a.
Proof. induction a as [|x a IH]; [done|]. by rewrite string_app_cons, IH. Qed.

Lemma string_length_app (a b : string) :
  String.length (a +:+ b) = (String.length a + String.length b)%nat.
Proof. induction a as [|x a IH]; [done|]. rewrite string_app_cons. simpl. by rewrite IH. Qed.

Lemma drop_app_length (a b : string) : Str.drop (String.length a) (a +:+ b) = b.
Proof. induction a as [|x a IH]; [by destruct b|]. by rewrite string_app_cons. Qed.

Lemma drop_split (n : nat) (s : string) : ∃ a, s = a +:+ Str.drop n s.
Proof.
  revert s. induction n as [|n IH]; intros s.
  - exists "". by destruct s.
  - destruct s as [|x s]; [by exists ""|].
    destruct (IH s) as [a Ha]. exists (String x a).
    rewrite string_app_cons. simpl. by rewrite <- Ha.
Qed.

Lemma endswith_app (p s : string) :
  Str.endswith p s = true ↔ ∃ a, s = a +:+ p.
Proof.
  unfold Str.endswith. rewrite andb_true_iff, !bool_decide_eq_true. split.
  - intros [_ Hdrop]. destruct (drop_split (String.length s - String.length p) s)
      as [a Ha]. exists a. by rewrite Hdrop in Ha.
  - intros [a ->]. rewrite string_length_app. split; [lia|].
    replace (String.length a + String.length p - String.length p)%nat
      with (String.length a) by lia.
    apply drop_app_length.
Qed.

Lemma replace_gff_plain (stem : string) :
  Str.mem "." stem = false → Str.replace ".gff" "" (stem +:+ ".gff") = stem.
Proof.
  unfold Str.replace. induction stem as [|c stem IH]; [done|].
  cbn [Str.mem]. intros [Hc Hstem]%orb_false_iff. apply bool_decide_eq_false in Hc.
  rewrite string_app_cons. cbn [Str.replace_go].
  assert (Str.startswith ".gff" (String c (stem +:+ ".gff")) = false) as ->.
  { cbn [Str.startswith]. rewrite bool_decide_eq_false_2; [done | congruence]. }
  by rewrite IH.
Qed.

Lemma split_plain (sep : ascii) (s : string) :
  Str.mem sep s = false → Str.split sep s = [s].
Proof.
  induction s as [|c s IH]; [done|]. cbn [Str.mem Str.split].
  intros [Hc Hs]%orb_false_iff. apply bool_decide_eq_false in Hc.
  rewrite bool_decide_eq_false_2 by congruence. by rewrite IH.
Qed.

Lemma split_nonempty (sep : ascii) (s : string) : Str.split sep s ≠ [].
Proof.
  destruct s as [|c s]; [done|]. simpl. case_bool_decide; [done|].
  by destruct (Str.split sep s).
Qed.

Lemma split_app_sep (sep : ascii) (a b : string) :
  ∃ h t, Str.split sep (a +:+ String sep b) = h :: t ∧ t ≠ [] ∧
         List.last t "" = List.last (Str.split sep b) "".
Proof.
  induction a as [|c a (h & t & Hsplit & Hne & Hlast)].
  - change ("" +:+ String sep b) with (String sep b). cbn [Str.split].
    rewrite bool_decide_eq_true_2 by done.
    exists "", (Str.split sep b). split; [done|]. split; [apply split_nonempty | done].
  - rewrite string_app_cons. cbn [Str.split]. rewrite Hsplit.
    case_bool_decide.
    + exists "", (h :: t). split; [done|]. split; [done|].
      rewrite <- Hlast. by destruct t.
    + by exists (String c h), t.
Qed.

Lemma last_split_app (sep : ascii) (a b : string) :
  List.last (Str.split sep (a +:+ String sep b)) "" = List.last (Str.split sep b) "".
Proof.
  destruct (split_app_sep sep a b) as (h & t & -> & Hne & <-). by destruct t.
Qed.

Lemma basename_join (folder name : string) :
  Str.mem "/" name = false →
  os_path_basename (os_path_join folder name) = name.
Proof.
  intros Hname. unfold os_path_basename, os_path_join.
  assert (Str.startswith "/" name = false) as ->.
  { destruct name as [|c name]; [done|]. simpl in *.
    apply orb_false_iff in Hname as [Hc _]. apply bool_decide_eq_false in Hc.
    rewrite bool_decide_eq_false_2; [done | congruence]. }
  assert (List.last (Str.split "/" name) "" = name) as Hlast
    by by rewrite split_plain.
  case_bool_decide as Hfolder; simpl.
  - subst folder. done.
  - destruct (Str.endswith "/" folder) eqn:Hend.
    + apply endswith_app in Hend as [a ->].
      rewrite string_app_assoc. change ("/" +:+ name) with (String "/" name).
      by rewrite last_split_app.
    + change ("/" +:+ name) with (String "/" name). by rewrite last_split_app.
Qed.

(** X3.  For a file named by a stem without dot or slash and the
    extension [.gff], in whatever folder, the genome name is the stem. *)
Theorem genome_name_of_plain (folder stem : string) :
  Str.mem "." stem = false → Str.mem "/" stem = false →
  genome_name_of (os_path_join folder (stem +:+ ".gff")) = stem.
Proof.
  intros Hdot Hslash. unfold genome_name_of.
  rewrite basename_join; [by apply replace_gff_plain|].
  clear Hdot. induction stem as [|c stem IH]; [done|].
  rewrite string_app_cons. simpl in *.
  apply orb_false_iff in Hslash as [-> Hs]. simpl. by apply IH.
Qed.

Lemma genome_name_of_plain_witness :
  genome_name_of (os_path_join "out/gff" ("strainA" +:+ ".gff")) = "strainA".
Proof. apply genome_name_of_plain; reflexivity. Defined.

(** ** The file list *)

Lemma insert_by_perm {A} (key : A → Z) (x : A) (l : list A) :
  insert_by key x l ≡ₚ x :: l.
Proof.
  induction l as [|y l IH]; simpl; [done|].
  case_bool_decide; [done|]. rewrite IH. apply Permutation_swap.
Qed.

Lemma sorted_perm {A} (key : A → Z) (l : list A) : sorted key l ≡ₚ l.
Proof.
  induction l as [|x l IH]; simpl; [done|].
  rewrite insert_by_perm. by rewrite IH.
Qed.

Lemma insert_by_sorted {A} (key : A → Z) (x : A) (l : list A) :
  StronglySorted (λ a b, key a ≤ key b) l →
  StronglySorted (λ a b, key a ≤ key b) (insert_by key x l).
Proof.
  induction 1 as [|y l Hl IH Hy]; simpl.
  - constructor; constructor.
  - case_bool_decide as Hxy.
    + constructor; [by constructor|]. constructor; [done|].
      eapply Forall_impl; [exact Hy|]. intros z Hz. simpl in *. lia.
    + constructor; [done|]. rewrite insert_by_perm. constructor; [lia | done].
Qed.

Lemma sorted_sorted {A} (key : A → Z) (l : list A) :
  StronglySorted (λ a b, key a ≤ key b) (sorted key l).
Proof.
  induction l as [|x l IH]; simpl; [constructor | by apply insert_by_sorted].
Qed.

Lemma filter_insert_by {A} (key : A → Z) (t : Z) (x : A) (l : list A) :
  filter (λ y, key y = t) (insert_by key x l) = filter (λ y, key y = t) (x :: l).
Proof.
  induction l as [|y l IH]; simpl; [done|].
  case_bool_decide as Hxy; [done|].
  rewrite filter_cons, IH, !filter_cons.
  destruct (decide (key y = t)), (decide (key x = t)); try done. lia.
Qed.

Lemma sorted_stable {A} (key : A → Z) (t : Z) (l : list A) :
  filter (λ y, key y = t) (sorted key l) = filter (λ y, key y = t) l.
Proof.
  induction l as [|x l IH]; simpl; [done|].
  rewrite filter_insert_by, !filter_cons, IH. done.
Qed.

(** X4.  The file list of a folder that exists: every name of the folder
    that ends in [.gff], each as often as it is listed and no other name,
    in the order of the creation times; names with one creation time keep
    the order of the listing. *)
Theorem gff_file_list_sorted (os_listdir : string → option (list string))
    (os_getctime : string → Z) (folder_path : string) (names : list string) :
  os_listdir folder_path = Some names →
  let ctime := λ f, os_getctime (os_path_join folder_path f) in
  let annotation := filter (λ f, Str.endswith ".gff" f = true) names in
  ∃ file_list,
    gff_file_list os_listdir os_getctime folder_path = Ok file_list ∧
    file_list ≡ₚ annotation ∧
    StronglySorted (λ a b, ctime a ≤ ctime b) file_list ∧
    ∀ t, filter (λ f, ctime f = t) file_list = filter (λ f, ctime f = t) annotation.
Proof.
  intros Hdir ctime annotation. unfold gff_file_list. rewrite Hdir.
  eexists. split; [done|]. split; [apply sorted_perm|].
  split; [apply (sorted_sorted ctime) | intros t; apply sorted_stable].
Qed.

Lemma gff_file_list_sorted_witness :
  let ctime := λ f, twin_getctime (os_path_join "gff" f) in
  let annotation :=
    filter (λ f, Str.endswith ".gff" f = true) ["a.gff.gff"; "notes.txt"; "a.gff"] in
  ∃ file_list,
    gff_file_list twin_listdir twin_getctime "gff" = Ok file_list ∧
    file_list ≡ₚ annotation ∧
    StronglySorted (λ a b, ctime a ≤ ctime b) file_list ∧
    ∀ t, filter (λ f, ctime f = t) file_list = filter (λ f, ctime f = t) annotation.
Proof.
  apply (gff_file_list_sorted twin_listdir twin_getctime "gff"
           ["a.gff.gff"; "notes.txt"; "a.gff"]).
  reflexivity.
Defined.

(** ** The driver: what it needs, what it writes *)

Lemma parse_files_unreadable (fs : filesystem) (folder_path : string)
    (target_genes file_list : list string) :
  Exists (λ f, fs !! os_path_join folder_path f = None) file_list →
  parse_files fs folder_path target_genes file_list = Raise FileNotFoundError.
Proof.
  induction 1 as [f files Hf|f files _ IH]; cbn [parse_files].
  - unfold parse_gff, read_file. by rewrite Hf.
  - rewrite IH. unfold parse_gff, read_file.
    by destruct (fs !! os_path_join folder_path f).
Qed.

Section DriverInputs.

Variable os_listdir : string → option (list string).
Variable os_getctime : string → Z.
Variable Phylo_read : string → result Clade.
Variable to_csv : DataFrame → string.
Variable fs : filesystem.
Variables (folder_path output_folder tree_file label : string).
Variable target_genes : list string.

(** X5.  Without an annotation file to read, nothing is written: a folder
    that does not exist is a [FileNotFoundError], and a folder in which no
    name ends in [.gff] is a [KeyError], raised when the empty frame is
    asked for its [Genome] column. *)
Theorem process_gff_folder_without_files :
  (os_listdir folder_path = None →
   process_gff_folder os_listdir os_getctime Phylo_read to_csv
     folder_path target_genes output_folder tree_file label fs
   = (Raise FileNotFoundError, fs)) ∧
  (∀ names, os_listdir folder_path = Some names →
     Forall (λ f, Str.endswith ".gff" f = false) names →
     process_gff_folder os_listdir os_getctime Phylo_read to_csv
       folder_path target_genes output_folder tree_file label fs
     = (Raise KeyError, fs)).
Proof.
  split.
  - intros Hdir. unfold process_gff_folder, presence_table, gff_file_list.
    by rewrite Hdir.
  - intros names Hdir Hnames.
    unfold process_gff_folder, presence_table, gff_file_list. rewrite Hdir.
    rewrite filter_none; [done|].
    intros f Hf. rewrite Forall_forall in Hnames. by rewrite (Hnames f Hf).
Qed.

(** X6.  One annotation file of the list that cannot be read fails the
    whole category: the error is a [FileNotFoundError] and nothing is
    written, whatever the other files hold. *)
Theorem process_gff_folder_unreadable_file (file_list : list string) :
  gff_file_list os_listdir os_getctime folder_path = Ok file_list →
  Exists (λ f, fs !! os_path_join folder_path f = None) file_list →
  process_gff_folder os_listdir os_getctime Phylo_read to_csv
    folder_path target_genes output_folder tree_file label fs
  = (Raise FileNotFoundError, fs).
Proof.
  intros Hlist Hbad. unfold process_gff_folder, presence_table.
  rewrite Hlist. simpl. by rewrite parse_files_unreadable.
Qed.

Lemma gene_loop_frame (df : DataFrame) (genes : list string)
    (fs0 : filesystem) (p : string) :
  p ∉ (λ gene, os_path_join output_folder (ordered_matrix_filename gene)) <$> genes →
  (gene_loop Phylo_read to_csv df output_folder tree_file genes fs0).2 !! p
  = fs0 !! p.
Proof.
  revert fs0. induction genes as [|gene genes IH]; intros fs0 Hp; [done|].
  rewrite fmap_cons, not_elem_of_cons in Hp. destruct Hp as [Hne Hp].
  cbn [gene_loop]. destruct (rbind _ _) as [e|R]; [done|].
  rewrite IH by done. by rewrite lookup_insert_ne.
Qed.

(** X7.  Whether it ends well or raises, [process_gff_folder] changes no
    file other than the presence table of the category and the ordered
    matrices of its genes. *)
Theorem process_gff_folder_writes_only_outputs (p : string) :
  p ∉ output_paths output_folder label target_genes →
  (process_gff_folder os_listdir os_getctime Phylo_read to_csv
     folder_path target_genes output_folder tree_file label fs).2 !! p
  = fs !! p.
Proof.
  unfold output_paths. rewrite not_elem_of_cons. intros [Hne Hp].
  unfold process_gff_folder. destruct (presence_table _ _ _ _ _) as [e|df]; [done|].
  rewrite gene_loop_frame by done. by rewrite lookup_insert_ne.
Qed.

End DriverInputs.

Lemma process_gff_folder_without_files_witness :
  process_gff_folder twin_listdir twin_getctime newick_reader csv_text
    "nowhere" ["mecA"] "out" "tree.nwk" "HGT" (twin_fs "(a,b);")
  = (Raise FileNotFoundError, twin_fs "(a,b);") ∧
  process_gff_folder (λ _, Some ["notes.txt"]) twin_getctime newick_reader csv_text
    "gff" ["mecA"] "out" "tree.nwk" "HGT" (twin_fs "(a,b);")
  = (Raise KeyError, twin_fs "(a,b);").
Proof.
  split.
  - apply (proj1 (process_gff_folder_without_files twin_listdir twin_getctime
                    newick_reader csv_text (twin_fs "(a,b);") "nowhere" "out"
                    "tree.nwk" "HGT" ["mecA"])).
    reflexivity.
  - apply (proj2 (process_gff_folder_without_files (λ _, Some ["notes.txt"])
                    twin_getctime newick_reader csv_text (twin_fs "(a,b);") "gff"
                    "out" "tree.nwk" "HGT" ["mecA"]) ["notes.txt"]).
    + reflexivity.
    + by_evaluation.
Defined.

Lemma process_gff_folder_unreadable_file_witness :
  process_gff_folder twin_listdir twin_getctime newick_reader csv_text
    "gff" ["mecA"] "out" "tree.nwk" "HGT" {[ "gff/a.gff" := "" ]}
  = (Raise FileNotFoundError, {[ "gff/a.gff" := "" ]}).
Proof.
  apply (process_gff_folder_unreadable_file twin_listdir twin_getctime
           newick_reader csv_text {[ "gff/a.gff" := "" ]} "gff" "out" "tree.nwk"
           "HGT" ["mecA"] ["a.gff"; "a.gff.gff"]).
  - vm_compute. reflexivity.
  - by_evaluation.
Defined.

Lemma process_gff_folder_writes_only_outputs_witness :
  (process_gff_folder twin_listdir twin_getctime newick_reader csv_text
     "gff" ["mecA"] "out" "tree.nwk" "HGT" (twin_fs "(a,b);")).2 !! "gff/a.gff"
  = twin_fs "(a,b);" !! "gff/a.gff".
Proof.
  apply (process_gff_folder_writes_only_outputs twin_listdir twin_getctime
           newick_reader csv_text (twin_fs "(a,b);") "gff" "out" "tree.nwk"
           "HGT" ["mecA"] "gff/a.gff").
  by_evaluation.
Defined.

Lemma comparison_matrix_of_table (df : DataFrame) (gene : string) :
  PresenceTable df → PStr gene ∈ columns df →
  ∃ bits, length bits = length (index df) ∧
          comparison_matrix df gene
          = Ok {| index := index df; columns := index df;
                  values := (λ a, (λ b, bit (a && b)) <$> bits) <$> bits |}.
Proof.
  intros Hdf Hgene.
  destruct (presence_column df gene Hdf Hgene) as (p & bits & Hpos & Hcol & Hlen & _).
  exists bits. split; [done|]. by apply (comparison_matrix_bits df gene p bits).
Qed.

Section DriverSuccess.

Variable os_listdir : string → option (list string).
Variable os_getctime : string → Z.
Variable Phylo_read : string → result Clade.
Variable to_csv : DataFrame → string.
Variable fs : filesystem.
Variables (folder_path output_folder tree_file label text : string).
Variables (target_genes file_list tips : list string) (tree : Clade).

Hypothesis listed : gff_file_list os_listdir os_getctime folder_path = Ok file_list.
Hypothesis some_file : file_list ≠ [].
Hypothesis readable :
  Forall (λ f, is_Some (fs !! os_path_join folder_path f)) file_list.
Hypothesis genes_named : "Genome" ∉ target_genes.

(** The tree file is none of the files the run writes; it can be read and
    parsed, and its tips are named. *)
Hypothesis tree_apart : tree_file ∉ output_paths output_folder label target_genes.
Hypothesis tree_file_read : fs !! tree_file = Some text.
Hypothesis tree_file_parsed : Phylo_read text = Ok tree.
Hypothesis tree_order : tip_labels (get_terminals tree) = Ok tips.

Lemma gene_loop_success (df : DataFrame) (genes : list string) (fs0 : filesystem) :
  PresenceTable df → (∀ g, g ∈ genes → PStr g ∈ columns df) →
  fs0 !! tree_file = Some text →
  tree_file ∉ (λ gene, os_path_join output_folder (ordered_matrix_filename gene))
                <$> genes →
  ∃ ordered, ordered_matrices df tips genes ordered ∧
    gene_loop Phylo_read to_csv df output_folder tree_file genes fs0
    = (Ok (), write_ordered to_csv output_folder (zip genes ordered) fs0).
Proof.
  intros Hdf. revert fs0. induction genes as [|gene genes IH];
    intros fs0 Hcols Htree Hapart.
  - exists []. split; [constructor | done].
  - rewrite fmap_cons, not_elem_of_cons in Hapart. destruct Hapart as [Hne Hapart].
    destruct (comparison_matrix_of_table df gene Hdf) as (bits & _ & HM).
    { apply Hcols, list_elem_of_here. }
    set (M := {| index := index df; columns := index df;
                 values := (λ a, (λ b, bit (a && b)) <$> bits) <$> bits |}) in *.
    pose proof (loc_Ok M (PStr <$> valid_genomes M tips)
                  (valid_genomes_in_index M tips) eq_refl) as HR.
    destruct (IH (<[os_path_join output_folder (ordered_matrix_filename gene)
                     := to_csv {| index := blocks (index M) (PStr <$> valid_genomes M tips);
                                  columns := blocks (index M) (PStr <$> valid_genomes M tips);
                                  values := take PNaN (flat_map (positions (index M)) (PStr <$> valid_genomes M tips))
                                              <$> take [] (flat_map (positions (index M)) (PStr <$> valid_genomes M tips)) (values M) |}]> fs0))
      as (ordered & Hordered & Hloop).
    { intros g Hg. apply Hcols. by apply list_elem_of_further. }
    { by rewrite lookup_insert_ne. }
    { done. }
    eexists (_ :: ordered). split.
    + constructor; [|exact Hordered]. exists M. split; [exact HM | exact HR].
    + cbn [gene_loop]. rewrite HM. cbv beta iota delta [rbind Ok].
      rewrite (reorder_unfold _ _ _ _ _ _ _ Htree tree_file_parsed tree_order).
      rewrite HR. cbv beta iota delta [Ok]. fold (@Ok unit).
      exact Hloop.
Qed.

(** X8.  With annotation files to read and a tree file that parses, the
    category ends without an exception: the presence table is written, and
    for every gene of the gene set, in order, the comparison matrix
    reindexed to its valid genomes is written under the name of the gene. *)
Theorem process_gff_folder_succeeds :
  ∃ df ordered,
    presence_table os_listdir os_getctime fs folder_path target_genes = Ok df ∧
    ordered_matrices df tips target_genes ordered ∧
    process_gff_folder os_listdir os_getctime Phylo_read to_csv
      folder_path target_genes output_folder tree_file label fs
    = (Ok (),
       write_ordered to_csv output_folder (zip target_genes ordered)
         (<[os_path_join output_folder (presence_matrix_filename label)
              := to_csv df]> fs)).
Proof.
  destruct (presence_table_built os_listdir os_getctime fs folder_path
              target_genes file_list listed some_file readable genes_named)
    as (df & Hdf & Hwf & Hcols).
  unfold output_paths in tree_apart. rewrite not_elem_of_cons in tree_apart.
  destruct tree_apart as [Hne Hapart].
  destruct (gene_loop_success df target_genes
              (<[os_path_join output_folder (presence_matrix_filename label)
                   := to_csv df]> fs) Hwf Hcols)
    as (ordered & Hordered & Hloop); [by rewrite lookup_insert_ne | done |].
  exists df, ordered. split; [done|]. split; [done|].
  unfold process_gff_folder. by rewrite Hdf.
Qed.

End DriverSuccess.

Lemma process_gff_folder_succeeds_witness :
  ∃ df ordered,
    presence_table twin_listdir twin_getctime (twin_fs "(b,a);") "gff"
      ["mecA"; "gyrA"] = Ok df ∧
    ordered_matrices df ["b"; "a"] ["mecA"; "gyrA"] ordered ∧
    process_gff_folder twin_listdir twin_getctime newick_reader csv_text
      "gff" ["mecA"; "gyrA"] "out" "tree.nwk" "HGT" (twin_fs "(b,a);")
    = (Ok (),
       write_ordered csv_text "out" (zip ["mecA"; "gyrA"] ordered)
         (<[os_path_join "out" (presence_matrix_filename "HGT")
              := csv_text df]> (twin_fs "(b,a);"))).
Proof.
  apply (process_gff_folder_succeeds twin_listdir twin_getctime newick_reader
           csv_text (twin_fs "(b,a);") "gff" "out" "tree.nwk" "HGT" "(b,a);"
           ["mecA"; "gyrA"] ["a.gff"; "a.gff.gff"] ["b"; "a"]
           (MkClade None [MkClade (Some "b") []; MkClade (Some "a") []])).
  - vm_compute. reflexivity.
  - discriminate.
  - by_evaluation.
  - by_evaluation.
  - by_evaluation.
  - vm_compute. reflexivity.
  - vm_compute. reflexivity.
  - vm_compute. reflexivity.
Defined.

(** ** Reindexing keeps the shape of a matrix *)

Lemma positions_lt (axis : list pyval) (k : pyval) :
  Forall (λ p, (p < length axis)%nat) (positions axis k).
Proof.
  eapply Forall_impl; [apply positions_labelled|].
  intros p Hp. cbv beta in *. eapply lookup_lt_Some. exact Hp.
Qed.

Lemma indexer_lt (axis keys : list pyval) :
  Forall (λ p, (p < length axis)%nat) (flat_map (positions axis) keys).
Proof.
  induction keys as [|k keys IH]; simpl; [constructor|].
  apply Forall_app. split; [apply positions_lt | done].
Qed.

Lemma cell_in_range (df : DataFrame) (i j : nat) :
  rectangular df → (i < length (index df))%nat → (j < length (columns df))%nat →
  cell df i j = Some (nth j (nth i (values df) []) PNaN).
Proof.
  intros [Hrows Hcols] Hi Hj. unfold cell.
  destruct (lookup_lt_is_Some_2 (values df) i) as [row Hrow]; [lia|].
  destruct (lookup_lt_is_Some_2 row j) as [c Hc].
  { by rewrite (Forall_lookup_1 _ _ _ _ Hcols Hrow). }
  rewrite Hrow. simpl. rewrite Hc.
  by rewrite (nth_lookup_Some _ _ _ _ Hrow), (nth_lookup_Some _ _ _ _ Hc).
Qed.

Lemma cell_take (idx cols : list pyval) (vals : list (list pyval))
    (ps cs : list nat) (a b : nat) :
  cell {| index := idx; columns := cols;
          values := take PNaN cs <$> take [] ps vals |} a b
  = pa ← ps !! a; pb ← cs !! b; Some (nth pb (nth pa vals []) PNaN).
Proof.
  unfold cell, take. simpl. rewrite !list_lookup_fmap.
  destruct (ps !! a) as [pa|]; simpl; [|done].
  rewrite list_lookup_fmap. by destruct (cs !! b).
Qed.

(** What selecting the same labels on both axes of a square matrix keeps. *)
Lemma loc_square (M : DataFrame) (keys : list pyval) :
  rectangular M → columns M = index M → Forall (λ k, k ∈ index M) keys →
  ∃ R, loc M keys keys = Ok R ∧ rectangular R ∧ columns R = index R ∧
       (symmetric M → symmetric R) ∧
       (∀ P : pyval → Prop, Forall (Forall P) (values M) → Forall (Forall P) (values R)).
Proof.
  intros Hrect Hsq Hkeys. rewrite loc_Ok by done. eexists. split; [done|].
  set (ps := flat_map (positions (index M)) keys).
  pose proof (indexer_lt (index M) keys) as Hlt. fold ps in Hlt.
  assert (∀ a b pa pb, ps !! a = Some pa → ps !! b = Some pb →
            cell M pa pb = Some (nth pb (nth pa (values M) []) PNaN)) as Hcell.
  { intros a b pa pb Ha Hb. apply cell_in_range; [done|..].
    - by apply (Forall_lookup_1 _ _ _ _ Hlt Ha).
    - rewrite Hsq. by apply (Forall_lookup_1 _ _ _ _ Hlt Hb). }
  split; [|split; [done|split]].
  - split; simpl.
    + rewrite length_fmap, length_take. unfold ps.
      by rewrite <- take_indexer, length_take.
    + apply Forall_fmap, Forall_forall. intros row _. simpl.
      rewrite length_take. unfold ps. by rewrite <- take_indexer, length_take.
  - intros Hsym a b. rewrite !cell_take.
    destruct (ps !! a) as [pa|] eqn:Ha, (ps !! b) as [pb|] eqn:Hb; simpl; try done.
    rewrite <- (Hcell a b pa pb Ha Hb), <- (Hcell b a pb pa Hb Ha). apply Hsym.
  - intros P HP. simpl. apply Forall_fmap, Forall_fmap, Forall_forall.
    intros pa Hpa. simpl. apply Forall_fmap, Forall_forall. intros pb Hpb. simpl.
    rewrite Forall_forall in Hlt.
    destruct Hrect as [Hrows Hcols].
    destruct (lookup_lt_is_Some_2 (values M) pa) as [row Hrow].
    { rewrite Hrows. by apply Hlt. }
    destruct (lookup_lt_is_Some_2 row pb) as [c Hc].
    { rewrite (Forall_lookup_1 _ _ _ _ Hcols Hrow), Hsq. by apply Hlt. }
    rewrite (nth_lookup_Some _ _ _ _ Hrow), (nth_lookup_Some _ _ _ _ Hc).
    eapply Forall_lookup_1; [|exact Hc]. by eapply Forall_lookup_1.
Qed.

Section Reindexing.

Variable Phylo_read : string → result Clade.
Variable fs : filesystem.
Variables (tree_file text : string) (tree : Clade) (tips : list string).

Hypothesis tree_file_read : fs !! tree_file = Some text.
Hypothesis tree_file_parsed : Phylo_read text = Ok tree.
Hypothesis tree_order : tip_labels (get_terminals tree) = Ok tips.

(** X9.  Reordering a rectangular matrix with the same labels on both
    axes always succeeds, and the result is again rectangular with the same
    labels on both axes; it is symmetric when the matrix is, and every cell
    of it is a cell of the matrix. *)
Theorem reorder_keeps_shape (M : DataFrame) :
  rectangular M → columns M = index M →
  ∃ R, reorder_matrix_by_tree Phylo_read fs M tree_file = Ok R ∧
       rectangular R ∧ columns R = index R ∧
       (symmetric M → symmetric R) ∧
       (∀ P : pyval → Prop, Forall (Forall P) (values M) → Forall (Forall P) (values R)).
Proof.
  intros Hrect Hsq.
  rewrite (reorder_unfold _ _ _ _ _ _ _ tree_file_read tree_file_parsed tree_order).
  apply loc_square; [done..|apply valid_genomes_in_index].
Qed.

(** X10.  The ordered comparison matrix of a gene of a presence table,
    with a tree file that is read and parses and has a name on every tip:
    both steps succeed, and the matrix written for the gene is rectangular,
    has the same genomes on both axes, is symmetric, and holds presence
    bits only. *)
Theorem ordered_comparison_matrix_wellformed (df : DataFrame) (gene : string) :
  PresenceTable df → PStr gene ∈ columns df →
  ∃ M R, comparison_matrix df gene = Ok M ∧
         reorder_matrix_by_tree Phylo_read fs M tree_file = Ok R ∧
         rectangular R ∧ columns R = index R ∧ symmetric R ∧ bit_cells R.
Proof.
  intros Hdf Hgene.
  destruct (comparison_matrix_of_table df gene Hdf Hgene) as (bits & Hlen & HM).
  set (M := {| index := index df; columns := index df;
               values := (λ a, (λ b, bit (a && b)) <$> bits) <$> bits |}) in *.
  assert (rectangular M) as Hrect.
  { split; simpl; [by rewrite length_fmap|].
    apply Forall_fmap, Forall_forall. intros a _. simpl. by rewrite length_fmap. }
  destruct (loc_square M (PStr <$> valid_genomes M tips) Hrect eq_refl
              (valid_genomes_in_index M tips))
    as (R & HR & ? & ? & Hsym & Hcells).
  exists M, R. split; [done|]. split.
  { by rewrite (reorder_unfold _ _ _ _ _ _ _ tree_file_read tree_file_parsed tree_order). }
  split; [done|]. split; [done|]. split.
  - apply Hsym. intros i j. unfold M. rewrite !cell_outer.
    destruct (bits !! i), (bits !! j); simpl; try done. by rewrite andb_comm.
  - apply Hcells. simpl. apply Forall_fmap, Forall_forall. intros a _. simpl.
    apply Forall_fmap, Forall_forall. intros b _. simpl. eauto.
Qed.

End Reindexing.

Lemma reorder_keeps_shape_witness :
  ∃ R, reorder_matrix_by_tree newick_reader {[ "tree.nwk" := example_tree_text ]}
         example_matrix "tree.nwk" = Ok R ∧
       rectangular R ∧ columns R = index R ∧
       (symmetric example_matrix → symmetric R) ∧
       (∀ P : pyval → Prop, Forall (Forall P) (values example_matrix) →
                            Forall (Forall P) (values R)).
Proof.
  apply (reorder_keeps_shape newick_reader {[ "tree.nwk" := example_tree_text ]}
           "tree.nwk" example_tree_text example_tree ["B"; "A"; "C"]
           (lookup_singleton_eq _ _) ltac:(vm_compute; reflexivity)
           ltac:(vm_compute; reflexivity) example_matrix).
  - split; [reflexivity | repeat constructor].
  - reflexivity.
Defined.

Lemma ordered_comparison_matrix_wellformed_witness :
  ∃ M R, comparison_matrix example_table "g" = Ok M ∧
         reorder_matrix_by_tree newick_reader {[ "tree.nwk" := example_tree_text ]}
           M "tree.nwk" = Ok R ∧
         rectangular R ∧ columns R = index R ∧ symmetric R ∧ bit_cells R.
Proof.
  apply (ordered_comparison_matrix_wellformed newick_reader
           {[ "tree.nwk" := example_tree_text ]}
           "tree.nwk" example_tree_text example_tree ["B"; "A"; "C"]
           (lookup_singleton_eq _ _) ltac:(vm_compute; reflexivity)
           ltac:(vm_compute; reflexivity) example_table "g").
  - exact example_table_PresenceTable.
  - by_evaluation.
Defined.

Lemma get_indexer_KeyError (axis keys : list pyval) :
  Exists (λ k, k ∉ axis) keys → get_indexer axis keys = Raise KeyError.
Proof.
  intros Hmissing. unfold get_indexer.
  assert (forallb (λ k, bool_decide (k ∈ axis)) keys = false) as ->; [|done].
  apply not_true_iff_false. rewrite forallb_forall. intros Hall.
  apply Exists_exists in Hmissing as (k & Hk & Hno).
  apply Hno. eapply bool_decide_eq_true, Hall. by apply list_elem_of_In.
Qed.

(** X11.  On a frame whose columns are not its index, the reconciler
    selects the valid genomes on both axes all the same: it succeeds when
    every valid genome is also a column label, and raises a [KeyError] as
    soon as one is not. *)
Theorem reorder_needs_columns (Phylo_read : string → result Clade)
    (fs : filesystem) (tree_file text : string) (tree : Clade)
    (tips : list string) (df : DataFrame) :
  fs !! tree_file = Some text → Phylo_read text = Ok tree →
  tip_labels (get_terminals tree) = Ok tips →
  (Forall (λ g, PStr g ∈ columns df) (valid_genomes df tips) →
   ∃ R, reorder_matrix_by_tree Phylo_read fs df tree_file = Ok R ∧
        index R = blocks (index df) (PStr <$> valid_genomes df tips) ∧
        columns R = blocks (columns df) (PStr <$> valid_genomes df tips)) ∧
  (Exists (λ g, PStr g ∉ columns df) (valid_genomes df tips) →
   reorder_matrix_by_tree Phylo_read fs df tree_file = Raise KeyError).
Proof.
  intros Hfs Hread Htips. rewrite (reorder_unfold _ _ _ _ _ _ _ Hfs Hread Htips).
  unfold loc. rewrite (get_indexer_Ok (index df)) by apply valid_genomes_in_index.
  cbn [rbind Ok]. split.
  - intros Hcols. rewrite get_indexer_Ok by by apply Forall_fmap.
    eexists. split; [done|]. simpl. by rewrite !take_indexer.
  - intros Hmissing. rewrite get_indexer_KeyError; [done|].
    apply Exists_fmap. exact Hmissing.
Qed.

Lemma reorder_needs_columns_witness :
  (∃ R, reorder_matrix_by_tree newick_reader {[ "tree.nwk" := example_tree_text ]}
          example_matrix "tree.nwk" = Ok R ∧
        index R = blocks (index example_matrix)
                    (PStr <$> valid_genomes example_matrix ["B"; "A"; "C"]) ∧
        columns R = blocks (columns example_matrix)
                      (PStr <$> valid_genomes example_matrix ["B"; "A"; "C"])) ∧
  reorder_matrix_by_tree newick_reader {[ "tree.nwk" := example_tree_text ]}
    example_table "tree.nwk" = Raise KeyError.
Proof.
  split.
  - apply (proj1 (reorder_needs_columns newick_reader
                    {[ "tree.nwk" := example_tree_text ]} "tree.nwk"
                    example_tree_text example_tree ["B"; "A"; "C"] example_matrix
                    (lookup_singleton_eq _ _) ltac:(vm_compute; reflexivity)
                    ltac:(vm_compute; reflexivity))).
    by_evaluation.
  - apply (proj2 (reorder_needs_columns newick_reader
                    {[ "tree.nwk" := example_tree_text ]} "tree.nwk"
                    example_tree_text example_tree ["B"; "A"; "C"] example_table
                    (lookup_singleton_eq _ _) ltac:(vm_compute; reflexivity)
                    ltac:(vm_compute; reflexivity))).
    by_evaluation.
Defined.

Example reorder_table_KeyError :
  reorder_matrix_by_tree newick_reader {[ "tree.nwk" := example_tree_text ]}
    example_table "tree.nwk" = Raise KeyError.
Proof. vm_compute. reflexivity. Qed.

(** ** The flattening step: what it changes *)




(** X13.  Flattening again changes nothing: after a run whose sources
    stay apart from the destinations, a second run over the same walk
    succeeds and leaves every file as the first run left it. *)
Theorem copy_gff_files_again (os_walk : string → walk)
    (main_folder gff_output_folder : string) (fs fs' : filesystem) :
  sources_apart (copies gff_output_folder (os_walk main_folder)) fs →
  copy_gff_files os_walk main_folder gff_output_folder fs = Ok fs' →
  copy_gff_files os_walk main_folder gff_output_folder fs' = Ok fs'.
Proof.
  intros Hsources. unfold copy_gff_files. rewrite !copy_dirs_copies.
  set (cs := copies gff_output_folder (os_walk main_folder)) in *.
  destruct (copy_all_last _ _ Hsources) as (fs1 & Hcopy & Hlook).
  rewrite Hcopy. intros [= <-].
  destruct (copy_all_sources_apart cs.*2 fs cs fs1) as (fs2 & Hcopy2 & Hlook2).
  - unfold sources_apart in Hsources. rewrite Forall_forall in Hsources.
    apply Forall_forall. intros c Hc. destruct (Hsources c Hc) as [? ?].
    repeat split; try done. by apply list_elem_of_fmap_2.
  - intros p Hp. by rewrite Hlook, last_source_None.
  - rewrite Hcopy2. f_equal. apply map_eq. intros p.
    rewrite Hlook2, Hlook. by destruct (last_source cs p).
Qed.

Lemma copy_dirs_app (out : string) (w1 w2 : walk) (fs : filesystem) :
  copy_dirs out (w1 ++ w2) fs = rbind (copy_dirs out w1 fs) (copy_dirs out w2).
Proof.
  revert fs. induction w1 as [|[root files] w1 IH]; intros fs; simpl; [done|].
  destruct (copy_files root out files fs); simpl; [done | apply IH].
Qed.

Lemma copy_files_in_place (out : string) (files : list string) (fs : filesystem) :
  Exists (λ f, Str.endswith ".gff" f = true) files →
  Forall (λ f, Str.endswith ".gff" f = true → is_Some (fs !! os_path_join out f)) files →
  copy_files out out files fs = Raise SameFileError.
Proof.
  induction 1 as [f files Hf|f files _ IH]; intros Hall;
    apply Forall_cons in Hall as [Hhere Hall]; cbn [copy_files].
  - rewrite Hf. destruct (Hhere Hf) as [text Htext]. unfold copy2.
    rewrite Htext. by rewrite bool_decide_eq_true_2.
  - destruct (Str.endswith ".gff" f) eqn:Hf; [|by apply IH].
    destruct (Hhere eq_refl) as [text Htext]. unfold copy2.
    rewrite Htext. by rewrite bool_decide_eq_true_2.
Qed.

(** X14.  When the walk comes to the working directory itself and finds
    an annotation file there, the copy of that file onto itself raises a
    [SameFileError] and flattening stops. *)
Theorem copy_gff_files_into_walked_folder (os_walk : string → walk)
    (main_folder gff_output_folder : string) (fs fs1 : filesystem)
    (files : list string) (w1 w2 : walk) :
  os_walk main_folder = w1 ++ (gff_output_folder, files) :: w2 →
  copy_dirs gff_output_folder w1 fs = Ok fs1 →
  Exists (λ f, Str.endswith ".gff" f = true) files →
  Forall (λ f, Str.endswith ".gff" f = true →
               is_Some (fs1 !! os_path_join gff_output_folder f)) files →
  copy_gff_files os_walk main_folder gff_output_folder fs = Raise SameFileError.
Proof.
  intros Hwalk Hbefore Hsome Hthere. unfold copy_gff_files.
  rewrite Hwalk, copy_dirs_app, Hbefore. cbn [rbind Ok copy_dirs].
  by rewrite copy_files_in_place.
Qed.


Lemma copy_gff_files_again_witness :
  copy_gff_files
    (λ _, [("in/g1", ["x.gff"; "notes.txt"]); ("in/g2", ["x.gff"])])
    "in" "out/gff"
    {[ "in/g1/x.gff" := "one"; "in/g2/x.gff" := "two"; "out/gff/x.gff" := "two" ]}
  = Ok {[ "in/g1/x.gff" := "one"; "in/g2/x.gff" := "two"; "out/gff/x.gff" := "two" ]}.
Proof.
  apply (copy_gff_files_again
           (λ _, [("in/g1", ["x.gff"; "notes.txt"]); ("in/g2", ["x.gff"])])
           "in" "out/gff" {[ "in/g1/x.gff" := "one"; "in/g2/x.gff" := "two" ]}).
  - by_evaluation.
  - vm_compute. reflexivity.
Defined.

Lemma copy_gff_files_into_walked_folder_witness :
  copy_gff_files
    (λ _, [("in/g1", ["x.gff"]); ("in/out", ["x.gff"])]) "in" "in/out"
    {[ "in/g1/x.gff" := "one" ]}
  = Raise SameFileError.
Proof.
  apply (copy_gff_files_into_walked_folder
           (λ _, [("in/g1", ["x.gff"]); ("in/out", ["x.gff"])]) "in" "in/out"
           {[ "in/g1/x.gff" := "one" ]}
           {[ "in/g1/x.gff" := "one"; "in/out/x.gff" := "one" ]}
           ["x.gff"] [("in/g1", ["x.gff"])] []).
  - reflexivity.
  - vm_compute. reflexivity.
  - by_evaluation.
  - by_evaluation.
Defined.

(** ** The viewers: names of the matrix files *)

Lemma splits_complete (a b : string) : (a, b) ∈ splits (a +:+ b).
Proof.
  induction a as [|c a IH].
  - change ("" +:+ b) with b. destruct b; apply list_elem_of_here.
  - rewrite string_app_cons. cbn [splits]. apply list_elem_of_further.
    apply (list_elem_of_fmap_2 (prod_map (String c) id) _ (a, b)), IH.
Qed.

Lemma startswith_app_inv (p g r : string) :
  Str.startswith p (g +:+ r) = true →
  Str.startswith p g = true ∨
  ∃ p2, p = g +:+ p2 ∧ p2 ≠ "" ∧ Str.startswith p2 r = true.
Proof.
  revert g. induction p as [|a p IH]; intros g H; [by left|].
  destruct g as [|c g].
  - right. exists (String a p). by repeat split.
  - rewrite string_app_cons in H. cbn [Str.startswith] in *.
    apply andb_true_iff in H as [Hc H]. apply bool_decide_eq_true in Hc. subst c.
    destruct (IH g H) as [Hg|(p2 & -> & Hne & Hp2)].
    + left. by rewrite bool_decide_eq_true_2.
    + right. exists p2. by rewrite string_app_cons.
Qed.

Lemma drop_app_le (i : nat) (a b : string) :
  (i ≤ String.length a)%nat → Str.drop i (a +:+ b) = Str.drop i a +:+ b.
Proof.
  revert a. induction i as [|i IH]; intros a Hi.
  - by destruct a.
  - destruct a as [|c a]; [simpl in Hi; lia|].
    rewrite string_app_cons. cbn [Str.drop]. apply IH. simpl in Hi. lia.
Qed.

Lemma split_str_go_nonempty (sep : string) (skip : nat) (s : string) :
  split_str_go sep skip s ≠ [].
Proof.
  revert skip. induction s as [|c s IH]; intros skip; [done|].
  cbn [split_str_go]. destruct skip; [|apply IH].
  destruct (Str.startswith sep (String c s)); [done|].
  by destruct (split_str_go sep 0 s).
Qed.

Lemma split_str_head (sep a r : string) :
  sep ≠ "" →
  (∀ i, (i < String.length a)%nat →
        Str.startswith sep (Str.drop i (a +:+ sep +:+ r)) = false) →
  nth 0 (split_str sep (a +:+ sep +:+ r)) "" = a.
Proof.
  intros Hsep. unfold split_str. induction a as [|c a IH]; intros Hfree.
  - change ("" +:+ sep +:+ r) with (sep +:+ r).
    destruct sep as [|x sep]; [done|]. rewrite string_app_cons.
    cbn [split_str_go]. rewrite <- string_app_cons.
    rewrite (proj2 (startswith_app _ _)) by eauto. done.
  - rewrite string_app_cons. cbn [split_str_go].
    pose proof (Hfree O ltac:(simpl; lia)) as H0. cbn [Str.drop] in H0.
    rewrite string_app_cons in H0. rewrite H0.
    pose proof (split_str_go_nonempty sep 0 (a +:+ sep +:+ r)) as Hne.
    rewrite <- IH at 2.
    + by destruct (split_str_go sep 0 (a +:+ sep +:+ r)).
    + intros i Hi. apply (Hfree (S i)). simpl. lia.
Qed.

Lemma no_straddling_occurrence (g : string) :
  g ≠ "" →
  Str.startswith "_comparison_matrix" (g +:+ matrix_suffix) = true →
  Str.startswith "_comparison_matrix" g = true.
Proof.
  intros Hg H. apply startswith_app_inv in H as [H|(p2 & Hcut & Hp2 & Hpre)]; [done|].
  pose proof (splits_complete g p2) as Hin. rewrite <- Hcut in Hin.
  assert (Forall (λ ab, ab.1 = "" ∨ ab.2 = "" ∨
                        Str.startswith ab.2 matrix_suffix = false)
            (splits "_comparison_matrix")) as Hall by by_evaluation.
  rewrite Forall_forall in Hall. destruct (Hall _ Hin) as [?|[?|Hno]]; simpl in *;
    congruence.
Qed.

(** X15.  The name of an ordered matrix file gives back its gene: for a
    gene name that holds no slash and no [_comparison_matrix], both viewers
    read the gene name from the path that [process_gff_folder] writes for
    it. *)
Theorem gene_of_matrix_file_round_trip (output_folder gene : string) :
  Str.mem "/" gene = false → ¬ occurs_in "_comparison_matrix" gene →
  gene_of_matrix_file (os_path_join output_folder (ordered_matrix_filename gene))
  = gene.
Proof.
  intros Hslash Hfree. unfold gene_of_matrix_file, ordered_matrix_filename.
  rewrite basename_join.
  2:{ clear Hfree. induction gene as [|c gene IH]; [done|].
      rewrite string_app_cons. simpl in *.
      apply orb_false_iff in Hslash as [-> Hs]. simpl. by apply IH. }
  change "_comparison_matrix_ordered_by_tree.csv"
    with ("_comparison_matrix" +:+ "_ordered_by_tree.csv").
  apply split_str_head; [done|]. intros i Hi.
  change ("_comparison_matrix" +:+ "_ordered_by_tree.csv") with matrix_suffix.
  rewrite drop_app_le by lia.
  destruct (Str.startswith "_comparison_matrix" (Str.drop i gene +:+ matrix_suffix))
    eqn:Hocc; [|done].
  exfalso. apply Hfree. exists i. apply no_straddling_occurrence; [|done].
  clear -Hi. revert i Hi. induction gene as [|c gene IH]; intros i Hi.
  - simpl in Hi. lia.
  - destruct i as [|i]; [done|]. cbn [Str.drop]. apply IH. simpl in Hi. lia.
Qed.

Lemma occurs_in_dec_false (sep s : string) :
  forallb (λ i, negb (Str.startswith sep (Str.drop i s)))
    (seq 0 (S (String.length s))) = true →
  sep ≠ "" → ¬ occurs_in sep s.
Proof.
  intros Hall Hsep [i Hi]. rewrite forallb_forall in Hall.
  destruct (decide (i ≤ String.length s)%nat) as [Hle|Hgt].
  - assert (In i (seq 0 (S (String.length s)))) as Hin by (apply in_seq; lia).
    apply Hall in Hin. rewrite Hi in Hin. discriminate Hin.
  - assert (Str.drop i s = "") as Hnil.
    { clear -Hgt. revert i Hgt. induction s as [|c s IH]; intros i Hgt.
      - by destruct i.
      - destruct i as [|i]; [simpl in Hgt; lia|]. cbn [Str.drop]. apply IH.
        simpl in Hgt. lia. }
    rewrite Hnil in Hi. by destruct sep.
Qed.

Lemma gene_of_matrix_file_round_trip_witness :
  gene_of_matrix_file (os_path_join "out/hgt" (ordered_matrix_filename "mecA"))
  = "mecA".
Proof.
  apply (gene_of_matrix_file_round_trip "out/hgt" "mecA").
  - reflexivity.
  - apply occurs_in_dec_false; [reflexivity | discriminate].
Defined.

Lemma app_eq_suffix (a l S P : string) :
  a +:+ S = l +:+ P → (String.length P ≤ String.length S)%nat →
  ∃ x, S = x +:+ P.
Proof.
  revert l. induction a as [|c a IH]; intros l Heq Hlen.
  - by exists l.
  - destruct l as [|c' l].
    + change ("" +:+ P) with P in Heq. apply (f_equal String.length) in Heq.
      rewrite string_length_app in Heq. simpl in Heq. lia.
    + rewrite !string_app_cons in Heq. injection Heq as _ Heq. by apply (IH l).
Qed.

(** X16.  The viewers' filter on file names takes every ordered matrix
    that [process_gff_folder] writes and never the presence table it writes
    to the same folder, whatever the gene and the label. *)
Theorem matrix_suffix_filter :
  (∀ gene, Str.endswith matrix_suffix (ordered_matrix_filename gene) = true) ∧
  (∀ label, Str.endswith matrix_suffix (presence_matrix_filename label) = false).
Proof.
  split.
  - intros gene. apply endswith_app. by exists gene.
  - intros label. apply not_true_iff_false. intros [a Ha]%endswith_app.
    unfold presence_matrix_filename in Ha. symmetry in Ha.
    apply app_eq_suffix in Ha as [x Hx]; [|vm_compute; lia].
    pose proof (splits_complete x "_gene_presence_matrix.csv") as Hin.
    rewrite <- Hx in Hin.
    assert (Forall (λ ab, ab.2 ≠ "_gene_presence_matrix.csv") (splits matrix_suffix))
      as Hall by by_evaluation.
    rewrite Forall_forall in Hall. by apply (Hall _ Hin).
Qed.

Lemma fold_dict_set_fresh {A V} (key : A → string) (val : A → V)
    (l : list A) (d : dict V) :
  NoDup (dict_keys d ++ (key <$> l)) →
  fold_left (λ d x, dict_set (key x) (val x) d) l d
  = d ++ ((λ x, (key x, val x)) <$> l).
Proof.
  revert d. induction l as [|x l IH]; intros d Hnd.
  - by rewrite app_nil_r.
  - rewrite fmap_cons in Hnd. cbn [fold_left]. rewrite dict_set_fresh.
    + rewrite IH; [by rewrite <- app_assoc|].
      unfold dict_keys. rewrite fmap_app, <- app_assoc. done.
    + apply NoDup_app in Hnd as (_ & Hd & _). intros Hk.
      apply (Hd _ Hk), list_elem_of_here.
Qed.

Lemma dict_get_elem {V} (d : dict V) (k : string) (v : V) :
  NoDup (dict_keys d) → (k, v) ∈ d → dict_get k d = Some v.
Proof.
  unfold dict_keys. induction d as [|[k' v'] d IH]; [by intros _ ?%elem_of_nil|].
  rewrite fmap_cons. cbn [fst dict_get]. intros [Hk Hnd]%NoDup_cons.
  intros [[= -> ->]|Hin]%elem_of_cons.
  - by rewrite bool_decide_eq_true_2.
  - rewrite bool_decide_eq_false_2; [by apply IH|]. intros ->.
    apply Hk. by apply (list_elem_of_fmap_2 fst _ (k, v)).
Qed.

(** X17.  When the matrix files of a folder have gene names that differ,
    the viewer's dictionary has one entry for every matrix file of the
    listing, in its order and for no other file, and looking up the gene
    name of a matrix file gives the path of that file in the folder. *)
Theorem load_matrix_files_distinct (os_listdir : string → option (list string))
    (folder : string) (names : list string) :
  os_listdir folder = Some names →
  let files := filter (λ f, Str.endswith matrix_suffix f = true) names in
  NoDup (gene_of_matrix_file <$> files) →
  ∃ d, load_matrix_files os_listdir folder = Ok d ∧
       d = (λ f, (gene_of_matrix_file f, os_path_join folder f)) <$> files ∧
       ∀ f, f ∈ files → dict_get (gene_of_matrix_file f) d = Some (os_path_join folder f).
Proof.
  intros Hdir files Hnd. unfold load_matrix_files. rewrite Hdir. fold files.
  rewrite fold_dict_set_fresh by done. eexists. split; [done|]. split; [done|].
  intros f Hf. apply dict_get_elem.
  - unfold dict_keys. rewrite app_nil_l, <- list_fmap_compose. exact Hnd.
  - rewrite app_nil_l.
    by apply (list_elem_of_fmap_2 (λ f, (gene_of_matrix_file f, os_path_join folder f))).
Qed.

Lemma load_matrix_files_distinct_witness :
  ∃ d, load_matrix_files
         (λ _, Some ["mecA_comparison_matrix_ordered_by_tree.csv";
                     "HGT_gene_presence_matrix.csv";
                     "tetA_comparison_matrix_ordered_by_tree.csv"]) "out/hgt" = Ok d ∧
       d = (λ f, (gene_of_matrix_file f, os_path_join "out/hgt" f))
             <$> filter (λ f, Str.endswith matrix_suffix f = true)
                   ["mecA_comparison_matrix_ordered_by_tree.csv";
                    "HGT_gene_presence_matrix.csv";
                    "tetA_comparison_matrix_ordered_by_tree.csv"] ∧
       ∀ f, f ∈ filter (λ f, Str.endswith matrix_suffix f = true)
                  ["mecA_comparison_matrix_ordered_by_tree.csv";
                   "HGT_gene_presence_matrix.csv";
                   "tetA_comparison_matrix_ordered_by_tree.csv"] →
            dict_get (gene_of_matrix_file f) d = Some (os_path_join "out/hgt" f).
Proof.
  apply (load_matrix_files_distinct
           (λ _, Some ["mecA_comparison_matrix_ordered_by_tree.csv";
                       "HGT_gene_presence_matrix.csv";
                       "tetA_comparison_matrix_ordered_by_tree.csv"]) "out/hgt"
           _ eq_refl).
  by_evaluation.
Defined.

Example load_matrix_files_example :
  load_matrix_files
    (λ _, Some ["mecA_comparison_matrix_ordered_by_tree.csv";
                "HGT_gene_presence_matrix.csv";
                "tetA_comparison_matrix_ordered_by_tree.csv"]) "out/hgt"
  = Ok [("mecA", "out/hgt/mecA_comparison_matrix_ordered_by_tree.csv");
        ("tetA", "out/hgt/tetA_comparison_matrix_ordered_by_tree.csv")].
Proof. vm_compute. reflexivity. Qed.

(** ** The static viewer: dots *)

Lemma rmapM_Ok {A B} (f : A → result B) (l : list A) (k : list B) :
  rmapM f l = Ok k ↔ Forall2 (λ x y, f x = Ok y) l k.
Proof.
  revert k. induction l as [|x l IH]; intros k; simpl.
  - split; [intros [= <-]; constructor | by intros ->%Forall2_nil_inv_l].
  - destruct (f x) as [e|y] eqn:Hx; simpl.
    + split; [done|]. intros (y & k' & Hy & _ & _)%Forall2_cons_inv_l.
      unfold Ok in *. congruence.
    + destruct (rmapM f l) as [e|ys] eqn:Hl; simpl.
      * split; [done|]. intros (y' & k' & _ & Hk' & _)%Forall2_cons_inv_l.
        by apply IH in Hk'.
      * split.
        -- intros [= <-]. constructor; [done | by apply IH].
        -- intros (y' & k' & Hy' & Hk' & ->)%Forall2_cons_inv_l.
           apply IH in Hk'. unfold Ok in *. congruence.
Qed.

Lemma rmapM_Raise {A B} (f : A → result B) (l : list A) (e : exn) :
  (∀ x e', f x = Raise e' → e' = e) →
  Exists (λ x, f x = Raise e) l → rmapM f l = Raise e.
Proof.
  intros Honly. induction 1 as [x l Hx|x l _ IH]; simpl.
  - by rewrite Hx.
  - rewrite IH. destruct (f x) as [e'|y] eqn:Hx; [|done].
    simpl. by rewrite (Honly x e' Hx).
Qed.

Lemma elem_of_row_nonzero (i j0 : nat) (row : list pyval) (p : nat * nat) :
  p ∈ row_nonzero i j0 row ↔
  ∃ q c, p = (i, (j0 + q)%nat) ∧ row !! q = Some c ∧ c ≠ PInt 0.
Proof.
  revert j0. induction row as [|c row IH]; intros j0; simpl.
  - split; [by intros ?%elem_of_nil | by intros (q & c & _ & ? & _)].
  - assert (p ∈ row_nonzero i (S j0) row ↔
            ∃ q c', p = (i, (j0 + S q)%nat) ∧ row !! q = Some c' ∧ c' ≠ PInt 0)
      as Htail.
    { rewrite IH. by setoid_rewrite Nat.add_succ_r. }
    case_bool_decide as Hc.
    + rewrite Htail. split.
      * intros (q & c' & ? & ? & ?). by exists (S q), c'.
      * intros ([|q] & c' & ? & Hq & ?); simpl in Hq; [congruence | eauto].
    + rewrite elem_of_cons, Htail. split.
      * intros [->|(q & c' & ? & ? & ?)].
        -- exists O, c. by rewrite Nat.add_0_r.
        -- by exists (S q), c'.
      * intros ([|q] & c' & -> & Hq & ?); simpl in Hq.
        -- left. by rewrite Nat.add_0_r.
        -- right. eauto.
Qed.

Lemma elem_of_rows_nonzero (i0 : nat) (rows : list (list pyval)) (i j : nat) :
  (i, j) ∈ rows_nonzero i0 rows ↔
  ∃ p row c, i = (i0 + p)%nat ∧ rows !! p = Some row ∧
             row !! j = Some c ∧ c ≠ PInt 0.
Proof.
  revert i0. induction rows as [|row rows IH]; intros i0; simpl.
  - split; [by intros ?%elem_of_nil | by intros (p & r & c & _ & ? & _)].
  - rewrite elem_of_app, elem_of_row_nonzero, IH. split.
    + intros [(q & c & [= -> ->] & Hq & Hc)|(p & r & c & -> & Hp & Hj & Hc)].
      * exists O, row, c. by rewrite Nat.add_0_r.
      * exists (S p), r, c. rewrite Nat.add_succ_r. done.
    + intros ([|p] & r & c & -> & Hp & Hj & Hc); simpl in Hp.
      * left. injection Hp as ->. exists j, c. by rewrite Nat.add_0_r.
      * right. exists p, r, c. rewrite Nat.add_succ_r. done.
Qed.

Lemma elem_of_nonzero (df : DataFrame) (i j : nat) :
  (i, j) ∈ nonzero df ↔ ∃ c, cell df i j = Some c ∧ c ≠ PInt 0.
Proof.
  unfold nonzero, cell. rewrite elem_of_rows_nonzero. split.
  - intros (p & row & c & -> & Hp & Hj & Hc). exists c. simpl.
    rewrite Hp. simpl. by rewrite Hj.
  - intros (c & Hcell & Hc). destruct (values df !! i) as [row|] eqn:Hrow; [|done].
    simpl in Hcell. by exists i, row, c.
Qed.

Lemma binarize_cell (df b : DataFrame) (i j : nat) :
  binarize df = Ok b →
  index b = index df ∧ columns b = columns df ∧
  match cell df i j with
  | Some c => ∃ c', positive c = Ok c' ∧ cell b i j = Some c'
  | None => cell b i j = None
  end.
Proof.
  unfold binarize. destruct (rmapM _ (values df)) as [e|cells] eqn:Hcells; [done|].
  simpl. intros [= <-]. repeat split. unfold cell. simpl.
  apply rmapM_Ok in Hcells.
  destruct (values df !! i) as [row|] eqn:Hrow; simpl.
  - destruct (Forall2_lookup_l _ _ _ _ _ Hcells Hrow) as (row' & -> & Hrow').
    simpl. apply rmapM_Ok in Hrow'.
    destruct (row !! j) as [c|] eqn:Hc.
    + destruct (Forall2_lookup_l _ _ _ _ _ Hrow' Hc) as (c' & -> & ?). eauto.
    + apply lookup_ge_None. apply lookup_ge_None in Hc.
      by rewrite <- (Forall2_length _ _ _ Hrow').
  - assert (cells !! i = None) as ->; [|done].
    apply lookup_ge_None. apply lookup_ge_None in Hrow.
    by rewrite <- (Forall2_length _ _ _ Hcells).
Qed.

Lemma binarize_numeric (df : DataFrame) :
  numeric df →
  ∃ b, binarize df = Ok b ∧ index b = index df ∧ columns b = columns df ∧
       ∀ i j, (i, j) ∈ nonzero b ↔ ∃ z, cell df i j = Some (PInt z) ∧ 0 < z.
Proof.
  intros Hnum.
  assert (∃ cells, rmapM (rmapM positive) (values df) = Ok cells) as [cells Hcells].
  { induction Hnum as [|row rows Hrow _ [cells IH]]; [by exists []|].
    assert (∃ row', rmapM positive row = Ok row') as [row' Hrow'].
    { induction Hrow as [|c row Hc _ [row' IH']]; [by exists []|].
      simpl. rewrite IH'. destruct c as [s|z|]; simpl; eauto.
      by destruct (Hc s). }
    simpl. rewrite Hrow', IH. simpl. eauto. }
  assert (binarize df = Ok {| index := index df; columns := columns df;
                              values := cells |}) as Hb.
  { unfold binarize. by rewrite Hcells. }
  eexists. split; [exact Hb|]. split; [done|]. split; [done|].
  intros i j. rewrite elem_of_nonzero.
  destruct (binarize_cell df _ i j Hb) as (_ & _ & Hcell).
  destruct (cell df i j) as [c|].
  - destruct Hcell as (c' & Hpos & ->). split.
    + intros (c'' & [= <-] & Hne). destruct c as [s|z|]; simpl in Hpos;
        [done| |injection Hpos as <-; done].
      injection Hpos as <-. exists z. split; [done|]. by case_bool_decide.
    + intros (z & [= ->] & Hz). simpl in Hpos. injection Hpos as <-.
      exists (PInt 1). by rewrite bool_decide_eq_true_2.
  - rewrite Hcell. split; [by intros (? & ? & _) | by intros (? & ? & _)].
Qed.

(** X18.  The dots of a matrix file.  When the frame holds no text, the
    binary frame keeps its labels, and the points handed to the scatter
    plot are exactly the positions (row, column) of the cells that hold an
    integer above 0; for a symmetric frame the set of points is symmetric
    too.  A cell of text makes the comparison a [TypeError]. *)
Theorem binarize_dots (df : DataFrame) :
  (Forall (Forall (λ c, ∀ s, c ≠ PStr s)) (values df) →
   ∃ b, binarize df = Ok b ∧ index b = index df ∧ columns b = columns df ∧
        (∀ i j, (i, j) ∈ nonzero b ↔ ∃ z, cell df i j = Some (PInt z) ∧ 0 < z) ∧
        (symmetric df → ∀ i j, (i, j) ∈ nonzero b ↔ (j, i) ∈ nonzero b)) ∧
  (Exists (Exists (λ c, ∃ s, c = PStr s)) (values df) →
   binarize df = Raise TypeError).
Proof.
  split.
  - intros Hnum.
    destruct (binarize_numeric df Hnum) as (b & Hb & Hi & Hc & Hdots).
    exists b. repeat (split; [done|]).
    intros Hsym i j. by rewrite !Hdots, Hsym.
  - intros Htext. unfold binarize. rewrite (rmapM_Raise _ _ TypeError); [done| |].
    + intros row e. destruct (rmapM positive row) as [e'|] eqn:Hrow; [|done].
      intros [= <-]. clear -Hrow. induction row as [|c row IH]; [done|].
      simpl in Hrow. destruct c as [s|z|]; simpl in Hrow;
        [by injection Hrow as <- | |];
        (destruct (rmapM positive row); [injection Hrow as <-; by apply IH | done]).
    + eapply Exists_impl; [exact Htext|]. intros row Hrow.
      apply rmapM_Raise; [|].
      * intros c e. by destruct c; intros [= <-].
      * eapply Exists_impl; [exact Hrow|]. by intros c [s ->].
Qed.

Lemma binarize_dots_witness :
  (∃ b, binarize example_matrix = Ok b ∧ index b = index example_matrix ∧
        columns b = columns example_matrix ∧
        (∀ i j, (i, j) ∈ nonzero b
                ↔ ∃ z, cell example_matrix i j = Some (PInt z) ∧ 0 < z) ∧
        (symmetric example_matrix → ∀ i j, (i, j) ∈ nonzero b ↔ (j, i) ∈ nonzero b)) ∧
  binarize text_matrix = Raise TypeError.
Proof.
  split.
  - apply (proj1 (binarize_dots example_matrix)).
    repeat first [apply Forall_cons_2 | apply Forall_nil_2]; intros s; discriminate.
  - apply (proj2 (binarize_dots text_matrix)).
    apply Exists_cons_hd, Exists_cons_hd. by exists "x".
Defined.

Example nonzero_example :
  rbind (binarize example_matrix) (λ b, Ok (nonzero b))
  = Ok [(0, 0); (0, 2); (2, 0); (2, 2)]%nat.
Proof. reflexivity. Qed.

(** ** The static viewer: the figure *)

Lemma insert_str_perm (x : string) (l : list string) : insert_str x l ≡ₚ x :: l.
Proof.
  induction l as [|y l IH]; simpl; [done|].
  destruct (String.leb x y); [done|]. by rewrite IH, Permutation_swap.
Qed.

Lemma sort_str_perm (l : list string) : sort_str l ≡ₚ l.
Proof.
  induction l as [|x l IH]; simpl; [done|]. by rewrite insert_str_perm, IH.
Qed.

Lemma insert_str_sorted (x : string) (l : list string) :
  Sorted (λ a b, String.leb a b = true) l →
  Sorted (λ a b, String.leb a b = true) (insert_str x l).
Proof.
  induction 1 as [|y l Hl IH Hhd]; simpl.
  - by repeat constructor.
  - destruct (String.leb x y) eqn:Hxy.
    + by repeat constructor.
    + constructor; [exact IH|].
      assert (String.leb y x = true) as Hyx.
      { destruct (String.leb_total x y) as [H|H]; [congruence | done]. }
      destruct Hhd as [|z l' Hyz]; simpl; [by constructor|].
      destruct (String.leb x z); by constructor.
Qed.

Lemma sort_str_sorted (l : list string) :
  Sorted (λ a b, String.leb a b = true) (sort_str l).
Proof.
  induction l as [|x l IH]; simpl; [constructor | by apply insert_str_sorted].
Qed.

Lemma plot_loop_unreadable (pd_read_csv : string → result DataFrame)
    (n i : nat) (paths : list string) (plotted : list Scatter)
    (binary_df : option DataFrame) :
  Forall (λ path, ∃ e, pd_read_csv path = Raise e) paths →
  plot_loop pd_read_csv n i paths plotted binary_df = inr (plotted, binary_df).
Proof.
  intros Hall. revert i. induction Hall as [|path rest [e He] _ IH]; intros i; simpl;
    [done|].
  unfold Raise in He. by rewrite He.
Qed.

Lemma elem_of_zip_swap (l : list (nat * nat)) (x y : nat) :
  (x, y) ∈ zip (l.*2) (l.*1) ↔ (y, x) ∈ l.
Proof.
  induction l as [|[a b] l IH]; simpl.
  - by rewrite !elem_of_nil.
  - rewrite !elem_of_cons, IH. split; (intros [[= -> ->]|?]; [by left | by right]).
Qed.

Lemma frames_read_cons (pd_read_csv : string → result DataFrame)
    (path : string) (rest : list string) :
  frames_read pd_read_csv (path :: rest)
  = match pd_read_csv path with
    | inl _ => frames_read pd_read_csv rest
    | inr df => (path, df) :: frames_read pd_read_csv rest
    end.
Proof. unfold frames_read. simpl. by destruct (pd_read_csv path). Qed.

Lemma plot_loop_frames (pd_read_csv : string → result DataFrame)
    (n i : nat) (paths : list string) (plotted : list Scatter)
    (binary_df : option DataFrame) :
  Forall (λ pf, numeric pf.2) (frames_read pd_read_csv paths) →
  ∃ drawn last_df,
    plot_loop pd_read_csv n i paths plotted binary_df
      = inr (plotted ++ drawn, last_df) ∧
    Forall2 (λ pf t,
               scatter_label t = gene_of_matrix_file pf.1 ∧
               ∀ x y, (x, y) ∈ scatter_points t
                      ↔ ∃ z, cell pf.2 y x = Some (PInt z) ∧ 0 < z)
            (frames_read pd_read_csv paths) drawn ∧
    match last (frames_read pd_read_csv paths) with
    | Some pf => ∃ b, last_df = Some b ∧ index b = index pf.2 ∧
                      columns b = columns pf.2
    | None => last_df = binary_df
    end.
Proof.
  revert i plotted binary_df.
  induction paths as [|path rest IH]; intros i plotted binary_df Hnum.
  - exists [], binary_df. simpl. rewrite app_nil_r. repeat split. constructor.
  - rewrite frames_read_cons in Hnum |- *. cbn [plot_loop].
    destruct (pd_read_csv path) as [e|df] eqn:Hread.
    + by apply IH.
    + apply Forall_cons in Hnum as [Hdf Hrest].
      destruct (binarize_numeric df Hdf) as (b & Hb & Hi & Hc & Hdots).
      unfold Ok in Hb. rewrite Hb.
      destruct (IH (S i) (plotted ++ [scatter_of n i path b]) (Some b) Hrest)
        as (drawn & last_df & Hloop & Htraces & Hlast).
      clear IH. exists (scatter_of n i path b :: drawn), last_df.
      split; [by rewrite Hloop, <- app_assoc|]. split.
      * constructor; [|exact Htraces]. split; [done|].
        intros x y. unfold scatter_points, scatter_of. simpl.
        by rewrite elem_of_zip_swap, Hdots.
      * rewrite last_cons.
        destruct (last (frames_read pd_read_csv rest)) as [pf|]; [exact Hlast|].
        subst last_df. by exists b.
Qed.

Lemma sort_str_nonempty (l : list string) : l ≠ [] → sort_str l ≠ [].
Proof.
  intros Hl Hnil. apply Hl, Permutation_nil_r. by rewrite <- Hnil, sort_str_perm.
Qed.

Lemma matrix_files_of_nil (folder : string) (names : list string) :
  matrix_files_of folder names = [] ↔
  Forall (λ f, Str.endswith matrix_suffix f = false) names.
Proof.
  unfold matrix_files_of. split.
  - intros Hnil%fmap_nil_inv. apply Forall_forall. intros f Hf.
    destruct (Str.endswith matrix_suffix f) eqn:Hend; [|done].
    assert (f ∈ filter (λ f, Str.endswith matrix_suffix f = true) names) as Hin
      by by apply list_elem_of_filter.
    rewrite Hnil in Hin. by apply elem_of_nil in Hin.
  - intros Hall. rewrite filter_none; [done|]. intros f Hf.
    rewrite Forall_forall in Hall. specialize (Hall f Hf). cbv beta in *.
    by rewrite Hall.
Qed.

(** X19.  A folder without data.  When no name in the folder ends with the
    suffix of the matrix files, [create_dotmap] returns without a figure.
    When there are such files and [pd.read_csv] reads none of them, every
    one is passed over and the labels of the axes are asked of a frame that
    was never bound: the call ends in [UnboundLocalError], and no figure is
    saved. *)
Theorem create_dotmap_without_data
    (os_listdir : string → option (list string))
    (pd_read_csv : string → result DataFrame)
    (matrix_folder : string) (names : list string) :
  os_listdir matrix_folder = Some names →
  (∀ f, f ∈ names → Str.endswith matrix_suffix f = true →
        ∃ e, pd_read_csv (os_path_join matrix_folder f) = Raise e) →
  (Forall (λ f, Str.endswith matrix_suffix f = false) names →
   create_dotmap os_listdir pd_read_csv matrix_folder = inr None) ∧
  (Exists (λ f, Str.endswith matrix_suffix f = true) names →
   create_dotmap os_listdir pd_read_csv matrix_folder = inl UnboundLocalError).
Proof.
  intros Hdir Hunread. unfold create_dotmap. rewrite Hdir. split.
  - intros Hnone. apply (matrix_files_of_nil matrix_folder) in Hnone. by rewrite Hnone.
  - intros Hsome.
    assert (matrix_files_of matrix_folder names ≠ []) as Hne.
    { intros Hnil%matrix_files_of_nil. apply Exists_exists in Hsome as (f & Hf & Hend).
      rewrite Forall_forall in Hnil. specialize (Hnil f Hf). cbv beta in *. congruence. }
    pose proof (sort_str_nonempty _ Hne) as Hsorted.
    destruct (matrix_files_of matrix_folder names) as [|p ps] eqn:Hfiles; [done|].
    rewrite plot_loop_unreadable; [done|].
    apply Forall_forall. intros path Hpath.
    rewrite sort_str_perm, <- Hfiles in Hpath. unfold matrix_files_of in Hpath.
    apply list_elem_of_fmap in Hpath as (f & -> & [Hend Hf]%list_elem_of_filter).
    by apply Hunread.
Qed.

Lemma create_dotmap_without_data_witness :
  create_dotmap viewer_listdir unreadable_csv "out/hgt" = inl UnboundLocalError.
Proof.
  refine (proj2 (create_dotmap_without_data viewer_listdir unreadable_csv "out/hgt"
                   _ eq_refl _) _).
  - intros f _ _. by exists FileNotFoundError.
  - apply Exists_cons_hd. reflexivity.
Defined.

(** X20.  The figure of a folder.  When [pd.read_csv] reads at least one
    matrix file and the frames read hold no text, [create_dotmap] saves one
    figure to [combined_dotmap.png] in the folder.  The figure has one
    scatter call for every file read, in ascending order of the paths, the
    files that cannot be read being passed over; the call of a file carries
    the gene name of the file as label and a point (x, y) exactly where the
    frame holds an integer above 0 in row y and column x.  The ticks of both
    axes are the labels of the last file read, whatever the labels of the
    other files. *)
Theorem create_dotmap_figure
    (os_listdir : string → option (list string))
    (pd_read_csv : string → result DataFrame)
    (matrix_folder : string) (names : list string)
    (last_path : string) (last_df : DataFrame) :
  let read :=
    frames_read pd_read_csv (sort_str (matrix_files_of matrix_folder names)) in
  os_listdir matrix_folder = Some names →
  Forall (λ pf, numeric pf.2) read →
  last read = Some (last_path, last_df) →
  ∃ fig,
    create_dotmap os_listdir pd_read_csv matrix_folder
      = inr (Some (os_path_join matrix_folder "combined_dotmap.png", fig)) ∧
    Forall2 (λ pf t,
               scatter_label t = gene_of_matrix_file pf.1 ∧
               ∀ x y, (x, y) ∈ scatter_points t
                      ↔ ∃ z, cell pf.2 y x = Some (PInt z) ∧ 0 < z)
            read (traces fig) ∧
    xticks fig = columns last_df ∧ yticks fig = index last_df.
Proof.
  intros read Hdir Hnum Hlast. unfold create_dotmap. rewrite Hdir.
  destruct (matrix_files_of matrix_folder names) as [|p ps] eqn:Hfiles.
  { by subst read. }
  destruct (plot_loop_frames pd_read_csv (length (sort_str (p :: ps))) 0
              (sort_str (p :: ps)) [] None Hnum)
    as (drawn & binary_df & Hloop & Htraces & Hbinary).
  fold read in Hbinary. rewrite Hlast in Hbinary.
  destruct Hbinary as (b & -> & Hi & Hc). rewrite Hloop. simpl.
  eexists. split; [reflexivity|]. simpl. done.
Qed.

Lemma create_dotmap_figure_witness :
  ∃ fig,
    create_dotmap viewer_listdir viewer_read_csv "out/hgt"
      = inr (Some (os_path_join "out/hgt" "combined_dotmap.png", fig)) ∧
    Forall2 (λ pf t,
               scatter_label t = gene_of_matrix_file pf.1 ∧
               ∀ x y, (x, y) ∈ scatter_points t
                      ↔ ∃ z, cell pf.2 y x = Some (PInt z) ∧ 0 < z)
            (frames_read viewer_read_csv
               (sort_str (matrix_files_of "out/hgt"
                  ["tetA_comparison_matrix_ordered_by_tree.csv";
                   "HGT_gene_presence_matrix.csv";
                   "mecA_comparison_matrix_ordered_by_tree.csv"])))
            (traces fig) ∧
    xticks fig = columns example_matrix ∧ yticks fig = index example_matrix.
Proof.
  refine (create_dotmap_figure viewer_listdir viewer_read_csv "out/hgt" _
            "out/hgt/tetA_comparison_matrix_ordered_by_tree.csv" example_matrix
            eq_refl _ eq_refl).
  apply Forall_cons_2; [|apply Forall_nil_2].
  repeat first [apply Forall_cons_2 | apply Forall_nil_2]; intros s; discriminate.
Defined.

Example create_dotmap_example :
  create_dotmap viewer_listdir viewer_read_csv "out/hgt"
  = inr (Some ("out/hgt/combined_dotmap.png",
               {| traces := [ {| scatter_x := [0; 2; 0; 2]%nat;
                                 scatter_y := [0; 0; 2; 2]%nat;
                                 scatter_color := (1, 2)%nat;
                                 scatter_label := "tetA" |} ];
                  xticks := [PStr "A"; PStr "B"; PStr "C"];
                  yticks := [PStr "A"; PStr "B"; PStr "C"] |})).
Proof. vm_compute. reflexivity. Qed.

(** ** The whole run *)

Lemma copy_all_frame (cs : list (string * string)) (fs fs' : filesystem)
    (p : string) :
  copy_all cs fs = Ok fs' → p ∉ cs.*2 → fs' !! p = fs !! p.
Proof.
  revert fs. induction cs as [|[src dst] cs IH]; intros fs; simpl.
  - by intros [= ->].
  - rewrite not_elem_of_cons. unfold copy2.
    destruct (fs !! src) as [text|]; [|done].
    case_bool_decide; [done|]. simpl. intros Hcopy [Hne Hp].
    rewrite (IH _ Hcopy Hp). by rewrite lookup_insert_ne.
Qed.

Lemma process_gff_folder_frame (os_listdir : string → option (list string))
    (os_getctime : string → Z) (Phylo_read : string → result Clade)
    (to_csv : DataFrame → string) (fs : filesystem)
    (folder_path output_folder tree_file label : string)
    (target_genes : list string) (p : string) :
  p ∉ output_paths output_folder label target_genes →
  (process_gff_folder os_listdir os_getctime Phylo_read to_csv
     folder_path target_genes output_folder tree_file label fs).2 !! p
  = fs !! p.
Proof.
  unfold output_paths. rewrite not_elem_of_cons. intros [Hne Hp].
  unfold process_gff_folder. destruct (presence_table _ _ _ _ _) as [e|df]; [done|].
  rewrite gene_loop_frame by done. by rewrite lookup_insert_ne.
Qed.

(** X21.  A whole run that ends well has changed no file other than the
    destinations of the copies, the presence tables of the two categories
    and the ordered matrices of their genes: the annotation files of the
    input tree and the tree file are as they were, unless they are among
    those paths themselves. *)
Theorem main_changes_only_outputs (os_walk : string → walk)
    (os_listdir : string → option (list string)) (os_getctime : string → Z)
    (Phylo_read : string → result Clade) (to_csv : DataFrame → string)
    (input_folder output_folder tree_file : string) (fs fs' : filesystem)
    (p : string) :
  main os_walk os_listdir os_getctime Phylo_read to_csv
    input_folder output_folder tree_file fs = Ok fs' →
  p ∉ (copies (os_path_join output_folder "gff") (os_walk input_folder)).*2 →
  p ∉ output_paths (os_path_join output_folder "hgt") "HGT" hgt_genes →
  p ∉ output_paths (os_path_join output_folder "vgt") "VGT" vgt_genes →
  fs' !! p = fs !! p.
Proof.
  unfold main, copy_gff_files. rewrite copy_dirs_copies.
  destruct (copy_all _ fs) as [e|fs1] eqn:Hcopy; [done|]. cbn [rbind].
  intros Hrun Hcopies Hhgt Hvgt.
  pose proof (process_gff_folder_frame os_listdir os_getctime Phylo_read to_csv
                fs1 (os_path_join output_folder "gff")
                (os_path_join output_folder "hgt") tree_file "HGT" hgt_genes p Hhgt)
    as Hframe1.
  destruct (process_gff_folder _ _ _ _ _ hgt_genes _ _ _ fs1) as [[e|[]] fs2];
    [done|].
  pose proof (process_gff_folder_frame os_listdir os_getctime Phylo_read to_csv
                fs2 (os_path_join output_folder "gff")
                (os_path_join output_folder "vgt") tree_file "VGT" vgt_genes p Hvgt)
    as Hframe2.
  destruct (process_gff_folder _ _ _ _ _ vgt_genes _ _ _ fs2) as [[e|[]] fs3];
    [done|].
  injection Hrun as <-. simpl in Hframe1, Hframe2.
  rewrite Hframe2, Hframe1. by apply (copy_all_frame _ _ _ _ Hcopy).
Qed.

Lemma main_changes_only_outputs_witness :
  ∃ fs', main run_walk run_listdir twin_getctime newick_reader csv_text
           "in" "out" "tree.nwk" run_fs = Ok fs' ∧
         fs' !! "in/g1/a.gff" = run_fs !! "in/g1/a.gff" ∧
         fs' !! "tree.nwk" = run_fs !! "tree.nwk".
Proof.
  pose (run := main run_walk run_listdir twin_getctime newick_reader csv_text
                 "in" "out" "tree.nwk" run_fs).
  assert (∃ fs', run = Ok fs') as [fs' Hrun].
  { vm_compute. eexists. reflexivity. }
  exists fs'. split; [exact Hrun|]. split.
  - apply (main_changes_only_outputs _ _ _ _ _ _ _ _ _ _ _ Hrun); by_evaluation.
  - apply (main_changes_only_outputs _ _ _ _ _ _ _ _ _ _ _ Hrun); by_evaluation.
Defined.
